(** * The inotify subscription registry of gamin (server/inotify-helper.c)

    A shallow embedding of [inotify-helper.c]: the file's static variables,
    the subscription objects it is handed by pointer, and the calls it makes
    to its collaborators (inotify-path.c, inotify-missing.c, inotify-diag.c,
    inotify-sub.c, glib) become one explicit program state that every
    function threads through a small state-and-fault monad. *)

From stdpp Require Import base gmap strings list.

Open Scope Z_scope.

(** ** Data *)

(** Addresses of subscription objects ([ih_sub_t *]) and of user callbacks. *)
Abbreviation ptr := positive (only parsing).
(** [gpointer]: the opaque user data handle. *)
Abbreviation gpointer := Z (only parsing).
(** [guint32] event mask. *)
Abbreviation guint32 := Z (only parsing).
(** [event_callback_t] / [found_callback_t]: a function pointer, [None] is NULL. *)
Abbreviation event_callback_t := (option positive) (only parsing).
Abbreviation found_callback_t := (option positive) (only parsing).

(** Modelled from the spec: the subscription record [ih_sub_t] is declared in
    inotify-sub.h, which is not part of the sources at hand.  The fields are
    the ones inotify-helper.c reads or writes: [sub->pathname],
    [sub->dirname], [sub->filename] (NULL for a directory-level
    subscription), [sub->usersubdata] and [sub->cancelled]. *)
Record ih_sub_t := Sub {
  pathname : string;
  dirname : string;
  filename : option string;
  usersubdata : gpointer;
  cancelled : bool
}.

Definition set_cancelled (b : bool) (s : ih_sub_t) : ih_sub_t :=
  {| pathname := pathname s; dirname := dirname s; filename := filename s;
     usersubdata := usersubdata s; cancelled := b |}.

(** Modelled from the spec: the kernel event [ik_event_t] is declared in
    inotify-kernel.h; inotify-helper.c reads [event->name] (NULL when the
    directory itself changed) and [event->mask]. *)
Record ik_event_t := Event {
  name : option string;
  mask : guint32
}.

(** What lies outside the process and decides the answers of the
    collaborators: whether inotify can be initialised, whether a live watch
    can be established for a subscription, and which paths exist
    ([g_file_test (path, G_FILE_TEST_EXISTS)]). *)
Record world := World {
  inotify_ok : bool;
  can_watch : ih_sub_t → bool;
  file_exists : string → bool
}.

(** Calls that leave inotify-helper.c.  The two user callbacks carry, as a
    label that the C call does not pass, the subscription they are made for. *)
Inductive call :=
  | CWarning (msg : string)
  | CIpStartup
  | CImStartup
  | CIdStartup
  | CIpStartWatching (sub : ptr)
  | CImAdd (sub : ptr)
  | CImRm (sub : ptr)
  | CIpStopWatching (sub : ptr)
  | CPredicate (sub : ptr)
  | CSubFree (sub : ptr)
  | CUserEcb (cb : positive) (sub : ptr) (fullpath : string) (m : guint32) (data : gpointer)
  | CUserFcb (cb : positive) (sub : ptr) (fullpath : string) (data : gpointer).

(** A [GList]: its nodes in list order, each with its address and the
    [data] pointer it holds.  The address is what a [GList *] points to;
    [l->next] of a node is the address of the node that follows it, and a
    node that has been unlinked and freed is no longer there to be read. *)
Abbreviation glist := (list (nat * positive)) (only parsing).

(** A trace entry: the call, and what the callee could see of the registry
    at that moment: the list and the subscription objects. *)
Record entry := Entry {
  e_call : call;
  e_list : glist;
  e_heap : gmap ptr ih_sub_t
}.

(** ** Program state *)

(** The statics of inotify-helper.c ([sub_list], [initialized], [user_ecb],
    [user_fcb], the function-local static [result] of [ih_startup], and the
    lock), the subscription objects, the tracking sets of the two
    collaborators, the outside world and the trace of calls made so far. *)
Record state := State {
  sub_list : glist;
  initialized : bool;
  user_ecb : event_callback_t;
  user_fcb : found_callback_t;
  result : bool;
  inotify_lock : bool;
  heap : gmap ptr ih_sub_t;
  ip_watched : gset ptr;
  im_missing : gset ptr;
  env : world;
  trace : list entry
}.

Definition set_sub_list (v : glist) (st : state) : state :=
  State v (initialized st) (user_ecb st) (user_fcb st) (result st) (inotify_lock st)
        (heap st) (ip_watched st) (im_missing st) (env st) (trace st).
Definition set_initialized (v : bool) (st : state) : state :=
  State (sub_list st) v (user_ecb st) (user_fcb st) (result st) (inotify_lock st)
        (heap st) (ip_watched st) (im_missing st) (env st) (trace st).
Definition set_user_ecb (v : event_callback_t) (st : state) : state :=
  State (sub_list st) (initialized st) v (user_fcb st) (result st) (inotify_lock st)
        (heap st) (ip_watched st) (im_missing st) (env st) (trace st).
Definition set_user_fcb (v : found_callback_t) (st : state) : state :=
  State (sub_list st) (initialized st) (user_ecb st) v (result st) (inotify_lock st)
        (heap st) (ip_watched st) (im_missing st) (env st) (trace st).
Definition set_result (v : bool) (st : state) : state :=
  State (sub_list st) (initialized st) (user_ecb st) (user_fcb st) v (inotify_lock st)
        (heap st) (ip_watched st) (im_missing st) (env st) (trace st).
Definition set_inotify_lock (v : bool) (st : state) : state :=
  State (sub_list st) (initialized st) (user_ecb st) (user_fcb st) (result st) v
        (heap st) (ip_watched st) (im_missing st) (env st) (trace st).
Definition set_heap (v : gmap ptr ih_sub_t) (st : state) : state :=
  State (sub_list st) (initialized st) (user_ecb st) (user_fcb st) (result st) (inotify_lock st)
        v (ip_watched st) (im_missing st) (env st) (trace st).
Definition set_ip_watched (v : gset ptr) (st : state) : state :=
  State (sub_list st) (initialized st) (user_ecb st) (user_fcb st) (result st) (inotify_lock st)
        (heap st) v (im_missing st) (env st) (trace st).
Definition set_im_missing (v : gset ptr) (st : state) : state :=
  State (sub_list st) (initialized st) (user_ecb st) (user_fcb st) (result st) (inotify_lock st)
        (heap st) (ip_watched st) v (env st) (trace st).
Definition set_env (v : world) (st : state) : state :=
  State (sub_list st) (initialized st) (user_ecb st) (user_fcb st) (result st) (inotify_lock st)
        (heap st) (ip_watched st) (im_missing st) v (trace st).
Definition set_trace (v : list entry) (st : state) : state :=
  State (sub_list st) (initialized st) (user_ecb st) (user_fcb st) (result st) (inotify_lock st)
        (heap st) (ip_watched st) (im_missing st) (env st) v.

(** ** The monad: state passing with faults *)

(** Ways in which the C program stops instead of returning: a failed
    [g_assert], a call through a NULL function pointer, an access to a
    subscription object or to a list node that is not (or no longer)
    allocated, and locking the non-recursive [inotify_lock] while it is
    held.  [OutOfFuel] is not a behaviour of the program: it is what the
    embedding of the unbounded [for] loop answers when it is given too few
    steps. *)
Inductive fault := AssertFail | NullCall | UseAfterFree | Deadlock | OutOfFuel.

Inductive res (A : Type) :=
  | Done (a : A) (st : state)
  | Fault (f : fault).
Arguments Done {A} a st.
Arguments Fault {A} f.

Definition M (A : Type) := state → res A.

Definition ret {A} (a : A) : M A := λ st, Done a st.
Definition bind {A B} (m : M A) (k : A → M B) : M B :=
  λ st, match m st with
        | Done a st' => k a st'
        | Fault f => Fault f
        end.
Definition raise {A} (f : fault) : M A := λ _, Fault f.
Definition gets {A} (proj : state → A) : M A := λ st, Done (proj st) st.
Definition modify (upd : state → state) : M unit := λ st, Done tt (upd st).

(** The monad is registered with stdpp's operational classes, which gives
    the notations [x ← m; k] and [m;; k]. *)
#[global] Instance M_ret : MRet M := @ret.
#[global] Instance M_bind : MBind M := λ A B k m, bind m k.

(** Record a call, with the registry as the callee sees it. *)
Definition log (c : call) : M unit :=
  modify (λ st, set_trace (trace st ++ [Entry c (sub_list st) (heap st)]) st).

(** [*sub]: read the subscription object behind a pointer. *)
Definition deref (sub : ptr) : M ih_sub_t :=
  λ st, match heap st !! sub with
        | Some s => Done s st
        | None => Fault UseAfterFree
        end.

Definition g_assert (b : bool) : M unit :=
  if b then ret tt else raise AssertFail.

(** [G_LOCK (inotify_lock)] and [G_UNLOCK (inotify_lock)]. *)
Definition G_LOCK : M unit :=
  λ st, if inotify_lock st then Fault Deadlock
        else Done tt (set_inotify_lock true st).
Definition G_UNLOCK : M unit := modify (set_inotify_lock false).

(** ** glib's doubly linked list *)

(** The data pointers held by the nodes, in list order. *)
Definition contents (l : glist) : list ptr := l.*2.

(** The list as a [GList *]: the address of its first node, [None] is NULL. *)
Definition first_node (l : glist) : option nat := fst <$> head l.

(** [l->data] and [l->next] of the node at address [a]; [None] when no node
    of the list lives at that address. *)
Fixpoint node_at (l : glist) (a : nat) : option (ptr * option nat) :=
  match l with
  | [] => None
  | (b, d) :: rest =>
      if decide (b = a) then Some (d, first_node rest) else node_at rest a
  end.

(** [g_list_find]: the address of the first node holding [data], [None] is
    NULL. *)
Fixpoint g_list_find (l : glist) (data : ptr) : option nat :=
  match l with
  | [] => None
  | (a, d) :: rest => if decide (d = data) then Some a else g_list_find rest data
  end.

(** The address of a newly allocated node: one that no node of the list
    has. *)
Definition new_node (l : glist) : nat := S (max_list l.*1).

(** [g_list_prepend]: a new node in front; the other nodes stay where they
    are. *)
Definition g_list_prepend (l : glist) (data : ptr) : glist :=
  (new_node l, data) :: l.

(** [g_list_remove]: unlinks and frees the first node holding [data], if
    any; the other nodes stay where they are. *)
Fixpoint g_list_remove (l : glist) (data : ptr) : glist :=
  match l with
  | [] => []
  | (a, d) :: rest =>
      if decide (d = data) then rest else (a, d) :: g_list_remove rest data
  end.

Definition g_warning (msg : string) : M unit := log (CWarning msg).

(** [static gboolean ih_debug_enabled = FALSE;], never assigned in the file. *)
Definition ih_debug_enabled : bool := false.
(** [#define IH_W if (ih_debug_enabled) g_warning] *)
Definition IH_W (msg : string) : M unit :=
  if ih_debug_enabled then g_warning msg else ret tt.

Definition newline : string := String (Ascii.ascii_of_nat 10) EmptyString.

(** ** The collaborators *)

(** Modelled from the spec: [ip_startup] (inotify-path.c) initialises the
    Watch Backend and reports whether that succeeded. *)
Definition ip_startup : M bool :=
  log CIpStartup;;
  w ← gets env;
  mret (inotify_ok w).

(** Modelled from the spec: [im_startup] (inotify-missing.c) and
    [id_startup] (inotify-diag.c) initialise the Missing-Path Scanner and
    the diagnostics. *)
Definition im_startup : M unit := log CImStartup.
Definition id_startup : M unit := log CIdStartup.

(** Modelled from the spec: [ip_start_watching] (inotify-path.c) attempts to
    establish a live kernel watch on the subscription's path; on success the
    Watch Backend tracks the subscription, otherwise it declines. *)
Definition ip_start_watching (sub : ptr) : M bool :=
  s ← deref sub;
  log (CIpStartWatching sub);;
  w ← gets env;
  if can_watch w s
  then modify (λ st, set_ip_watched ({[sub]} ∪ ip_watched st) st);; mret true
  else mret false.

(** Modelled from the spec: [ip_stop_watching] asks the Watch Backend to stop
    watching, a no-op if the subscription is not watched there. *)
Definition ip_stop_watching (sub : ptr) : M unit :=
  log (CIpStopWatching sub);;
  modify (λ st, set_ip_watched (ip_watched st ∖ {[sub]}) st).

(** Modelled from the spec: [im_add] hands the subscription to the
    Missing-Path Scanner; [im_rm] removes it from the scanner's tracking, a
    no-op if it is not tracked there. *)
Definition im_add (sub : ptr) : M unit :=
  log (CImAdd sub);;
  modify (λ st, set_im_missing ({[sub]} ∪ im_missing st) st).
Definition im_rm (sub : ptr) : M unit :=
  log (CImRm sub);;
  modify (λ st, set_im_missing (im_missing st ∖ {[sub]}) st).

(** Modelled from the spec: [ih_sub_free] (inotify-sub.c) releases the
    memory of a subscription. *)
Definition ih_sub_free (sub : ptr) : M unit :=
  _ ← deref sub;
  log (CSubFree sub);;
  modify (λ st, set_heap (delete sub (heap st)) st).

(** The predicate handed to the enumeration, with its [callerdata] closed
    over: it is given the pointer and reads the object behind it.  Its
    answer is a function of these two: a predicate that keeps state in its
    [callerdata] from one call to the next is outside this type. *)
Definition foreach_pred := ptr → ih_sub_t → bool.
Definition call_predicate (f : foreach_pred) (sub : ptr) : M bool :=
  s ← deref sub;
  log (CPredicate sub);;
  mret (f sub s).

(** ** inotify-helper.c *)

(** [static void ih_event_callback (ik_event_t *event, ih_sub_t *sub)] *)
Definition ih_event_callback (event : ik_event_t) (sub : ptr) : M unit :=
  s ← deref sub;
  let fullpath :=
    match name event with
    | Some n => dirname s +:+ "/" +:+ n
    | None => dirname s +:+ "/"
    end in
  cb ← gets user_ecb;
  match cb with
  | Some f => log (CUserEcb f sub fullpath (mask event) (usersubdata s))
  | None => raise NullCall
  end.

(** [static void ih_found_callback (ih_sub_t *sub)] *)
Definition ih_found_callback (sub : ptr) : M unit :=
  s ← deref sub;
  w ← gets env;
  match filename s with
  | Some fn =>
      let fullpath := dirname s +:+ "/" +:+ fn in
      if negb (file_exists w fullpath) then mret tt
      else
        cb ← gets user_fcb;
        match cb with
        | Some f => log (CUserFcb f sub fullpath (usersubdata s))
        | None => raise NullCall
        end
  | None =>
      let fullpath := dirname s +:+ "/" in
      cb ← gets user_fcb;
      match cb with
      | Some f => log (CUserFcb f sub fullpath (usersubdata s))
      | None => raise NullCall
      end
  end.

(** [gboolean ih_startup (event_callback_t ecb, found_callback_t fcb)] *)
Definition ih_startup (ecb : event_callback_t) (fcb : found_callback_t) : M bool :=
  G_LOCK;;
  ini ← gets initialized;
  if (ini : bool) then
    G_UNLOCK;;
    gets result
  else
    r ← ip_startup;
    modify (set_result r);;
    if negb r then
      g_warning ("Could not initialize inotify" +:+ newline);;
      G_UNLOCK;;
      mret false
    else
      modify (set_initialized true);;
      modify (set_user_ecb ecb);;
      modify (set_user_fcb fcb);;
      im_startup;;
      id_startup;;
      IH_W ("started gnome-vfs inotify backend" +:+ newline);;
      G_UNLOCK;;
      mret true.

(** [gboolean ih_running (void)] *)
Definition ih_running : M bool := gets initialized.

(** [gboolean ih_sub_add (ih_sub_t * sub)] *)
Definition ih_sub_add (sub : ptr) : M bool :=
  G_LOCK;;
  l ← gets sub_list;
  g_assert (bool_decide (g_list_find l sub = None));;
  ok ← ip_start_watching sub;
  (if negb ok then im_add sub else mret tt);;
  l ← gets sub_list;
  modify (set_sub_list (g_list_prepend l sub));;
  G_UNLOCK;;
  mret true.

(** [static gboolean ih_sub_cancel (ih_sub_t * sub)]; the caller holds
    [inotify_lock]. *)
Definition ih_sub_cancel (sub : ptr) : M bool :=
  s ← deref sub;
  if negb (cancelled s) then
    IH_W ("cancelling " +:+ pathname s +:+ newline);;
    l ← gets sub_list;
    g_assert (bool_decide (g_list_find l sub ≠ None));;
    modify (λ st, set_heap (alter (set_cancelled true) sub (heap st)) st);;
    im_rm sub;;
    ip_stop_watching sub;;
    l ← gets sub_list;
    modify (set_sub_list (g_list_remove l sub));;
    mret true
  else
    mret true.

(** The body of the loop of [ih_sub_foreach_worker], on the subscription
    [sub = l->data]. *)
Definition foreach_body (f : foreach_pred) (free : bool) (sub : ptr) : M unit :=
  b ← call_predicate f sub;
  if (b : bool) then
    ih_sub_cancel sub;;
    if free then ih_sub_free sub else mret tt
  else mret tt.

(** The loop [for (l = sub_list; l; l = next)] of [ih_sub_foreach_worker]:
    [l] is the address of the node the traversal stands on.  [sub = l->data]
    and [next = l->next] are read from the list as it is when the iteration
    begins, before [f] runs and before the body unlinks any node.  The loop
    has no bound of its own; [fuel] bounds the number of iterations. *)
Fixpoint foreach_loop (fuel : nat) (f : foreach_pred) (free : bool)
    (l : option nat) : M unit :=
  match l with
  | None => mret tt
  | Some a =>
      match fuel with
      | O => raise OutOfFuel
      | S fuel' =>
          nodes ← gets sub_list;
          match node_at nodes a with
          | None => raise UseAfterFree
          | Some (sub, next) =>
              foreach_body f free sub;;
              foreach_loop fuel' f free next
          end
      end
  end.

(** [static void ih_sub_foreach_worker (callerdata, f, free)]; one
    iteration for each node of the list is all the loop can make. *)
Definition ih_sub_foreach_worker (f : foreach_pred) (free : bool) : M unit :=
  G_LOCK;;
  nodes ← gets sub_list;
  foreach_loop (length nodes) f free (first_node nodes);;
  G_UNLOCK.

(** [void ih_sub_foreach (callerdata, f)] *)
Definition ih_sub_foreach (f : foreach_pred) : M unit :=
  ih_sub_foreach_worker f false.

(** [void ih_sub_foreach_free (callerdata, f)] *)
Definition ih_sub_foreach_free (f : foreach_pred) : M unit :=
  ih_sub_foreach_worker f true.

(** ** The two producers, and runs of the whole system *)

(** Modelled from the spec: the Watch Backend (inotify-kernel.c and
    inotify-path.c) takes the shared lock when it processes kernel events
    and reports an event for a subscription it watches through the adapter
    it was given by [ip_startup (ih_event_callback)]. *)
Definition ip_event (event : ik_event_t) (sub : ptr) : M unit :=
  G_LOCK;;
  watched ← gets ip_watched;
  (if decide (sub ∈ watched) then ih_event_callback event sub else mret tt);;
  G_UNLOCK.

(** Modelled from the spec: the Missing-Path Scanner (inotify-missing.c)
    takes the shared lock, retries a subscription parked as missing and,
    when the Watch Backend now accepts it, promotes it: it invokes the
    adapter given by [im_startup (ih_found_callback)] and stops tracking
    the subscription. *)
Definition im_scan (sub : ptr) : M unit :=
  G_LOCK;;
  parked ← gets im_missing;
  (if decide (sub ∈ parked) then
     ok ← ip_start_watching sub;
     if (ok : bool) then
       ih_found_callback sub;;
       modify (λ st, set_im_missing (im_missing st ∖ {[sub]}) st)
     else mret tt
   else mret tt);;
  G_UNLOCK.

(** One step of the system as seen from outside a locked section: a call of
    a public function by a client, a step of one of the two producers, or a
    change of the outside world. *)
Inductive op :=
  | OpStartup (ecb : event_callback_t) (fcb : found_callback_t)
  | OpRunning
  | OpAdd (sub : ptr)
  | OpForeach (f : foreach_pred)
  | OpForeachFree (f : foreach_pred)
  | OpEvent (event : ik_event_t) (sub : ptr)
  | OpScan (sub : ptr)
  | OpWorld (w : world).

Definition exec (o : op) : M unit :=
  match o with
  | OpStartup ecb fcb => ih_startup ecb fcb;; mret tt
  | OpRunning => ih_running;; mret tt
  | OpAdd sub => ih_sub_add sub;; mret tt
  | OpForeach f => ih_sub_foreach f
  | OpForeachFree f => ih_sub_foreach_free f
  | OpEvent event sub => ip_event event sub
  | OpScan sub => im_scan sub
  | OpWorld w => modify (set_env w)
  end.

Fixpoint run (ops : list op) : M unit :=
  match ops with
  | [] => mret tt
  | o :: rest => exec o;; run rest
  end.

(** ** Lifecycle *)

(** The subscription object is allocated and its [cancelled] flag is clear. *)
Definition flag_clear (st : state) (sub : ptr) : Prop :=
  ∃ s, heap st !! sub = Some s ∧ cancelled s = false.

(** The subscription object is allocated and its [cancelled] flag is set. *)
Definition is_cancelled (st : state) (sub : ptr) : Prop :=
  ∃ s, heap st !! sub = Some s ∧ cancelled s = true.

(** Watching: owned by the Watch Backend; Missing: owned by the Missing-Path
    Scanner. *)
Definition watching (st : state) (sub : ptr) : Prop := sub ∈ ip_watched st.
Definition missing (st : state) (sub : ptr) : Prop := sub ∈ im_missing st.

(** The membership invariant, for the subscriptions [U] that have been
    handed to the registry: the nodes of the list have distinct addresses,
    the list holds no pointer twice, a subscription is in the list exactly
    when one of the two collaborators owns it, and a subscription handed to
    the registry is in the list exactly when its [cancelled] flag is
    clear. *)
Definition registry_inv (U : gset ptr) (st : state) : Prop :=
  NoDup (sub_list st).*1 ∧
  NoDup (contents (sub_list st)) ∧
  (∀ sub, sub ∈ contents (sub_list st) ↔ watching st sub ∨ missing st sub) ∧
  (∀ sub, sub ∈ contents (sub_list st) → flag_clear st sub) ∧
  (∀ sub, sub ∈ U → flag_clear st sub → sub ∈ contents (sub_list st)).

(** A step hands a subscription to the registry only while its [cancelled]
    flag is clear. *)
Definition admissible (o : op) (st : state) : Prop :=
  match o with
  | OpAdd sub => flag_clear st sub
  | _ => True
  end.

(** The subscriptions a step hands to the registry. *)
Definition admitted (o : op) : gset ptr :=
  match o with
  | OpAdd sub => {[sub]}
  | _ => ∅
  end.

Fixpoint admissible_run (ops : list op) (st : state) : Prop :=
  match ops with
  | [] => True
  | o :: rest =>
      admissible o st ∧
      match exec o st with
      | Done _ st' => admissible_run rest st'
      | Fault _ => True
      end
  end.

(** The subscription a user callback is invoked for. *)
Definition callback_subject (c : call) : option ptr :=
  match c with
  | CUserEcb _ sub _ _ _ => Some sub
  | CUserFcb _ sub _ _ => Some sub
  | _ => None
  end.

(** What one step may add to the trace: entries whose user callbacks, if
    any, are made for subscriptions with a clear flag. *)
Definition calm (st : state) (new : list entry) : Prop :=
  ∀ e sub, e ∈ new → callback_subject (e_call e) = Some sub → flag_clear st sub.

(** The subscriptions a stretch of the trace shows the predicate visiting. *)
Definition visited (c : call) : option ptr :=
  match c with
  | CPredicate sub => Some sub
  | _ => None
  end.

(** The traversal written out over the [data] pointers of the nodes that
    lie ahead: what the loop amounts to when no node ahead is unlinked. *)
Fixpoint foreach_seq (f : foreach_pred) (free : bool) (subs : list ptr) : M unit :=
  match subs with
  | [] => mret tt
  | sub :: rest =>
      foreach_body f free sub;;
      foreach_seq f free rest
  end.

(** The calls one visit of the enumeration is expected to make on a
    subscription, given the subscription objects as they are when the
    enumeration starts: the predicate; on TRUE, at once, the two detach calls
    of a cancellation (none if the flag was set already) and, in the
    releasing variant, the release. *)
Definition visit_calls (f : foreach_pred) (free : bool) (h : gmap ptr ih_sub_t)
    (sub : ptr) : list call :=
  match h !! sub with
  | Some s =>
      CPredicate sub ::
      if f sub s then
        (if cancelled s then [] else [CImRm sub; CIpStopWatching sub]) ++
        (if free then [CSubFree sub] else [])
      else []
  | None => []
  end.

(** The subscriptions of [l] that an enumeration takes out of the registry:
    the predicate says TRUE and the flag was clear. *)
Definition struck (f : foreach_pred) (h : gmap ptr ih_sub_t) (l : list ptr)
    (x : ptr) : Prop :=
  x ∈ l ∧ ∃ s, h !! x = Some s ∧ f x s = true ∧ cancelled s = false.

(** A freshly started process: nothing registered, nothing tracked, the lock
    free; the subscription objects and the world are arbitrary. *)
Definition initial (st : state) : Prop :=
  sub_list st = [] ∧ ip_watched st = ∅ ∧ im_missing st = ∅ ∧
  inotify_lock st = false.

(** ** Concrete states used by the examples *)

Definition world0 : world :=
  World true (λ s, bool_decide (dirname s = "/a/b")) (λ p, bool_decide (p = "/a/f")).

Definition sub_dir : ih_sub_t := Sub "/a/b" "/a/b" None 7 false.
Definition sub_file : ih_sub_t := Sub "/a/f" "/a" (Some "f") 8 false.
Definition sub_gone : ih_sub_t := Sub "/a/g" "/a" (Some "g") 9 false.

Definition heap0 : gmap ptr ih_sub_t :=
  <[1%positive := sub_dir]> (<[2%positive := sub_file]> (<[3%positive := sub_gone]> ∅)).

Definition st0 : state :=
  State [] false None None false false heap0 ∅ ∅ world0 [].

(** Three registered subscriptions, added in the order 1, 2, 3: 1 is
    watched, 2 and 3 are parked as missing. *)
Definition list_three : glist :=
  [(3%nat, 3%positive); (2%nat, 2%positive); (1%nat, 1%positive)].

Definition st_three : state :=
  State list_three true (Some 11%positive) (Some 12%positive)
        true false heap0 {[1%positive]} {[2%positive; 3%positive]} world0 [].

Definition always : foreach_pred := λ _ _, true.

(** The objects once subscription 1 has been cancelled. *)
Definition heap_cancelled : gmap ptr ih_sub_t :=
  <[1%positive := set_cancelled true sub_dir]> heap0.

(** The state after start-up, the admission of subscription 1 and an
    enumeration (not releasing) whose predicate says TRUE: subscription 1 is
    cancelled, still allocated, and in no list. *)
Definition st_cancelled : state :=
  State [] true (Some 11%positive) (Some 12%positive) true false heap_cancelled ∅ ∅ world0
        [Entry CIpStartup [] heap0; Entry CImStartup [] heap0; Entry CIdStartup [] heap0;
         Entry (CIpStartWatching 1%positive) [] heap0;
         Entry (CPredicate 1%positive) [(1%nat, 1%positive)] heap0;
         Entry (CImRm 1%positive) [(1%nat, 1%positive)] heap_cancelled;
         Entry (CIpStopWatching 1%positive) [(1%nat, 1%positive)] heap_cancelled].

(** The state after subscription 1 has then been handed to [ih_sub_add]
    again. *)
Definition st_readded : state :=
  State [(1%nat, 1%positive)] true (Some 11%positive) (Some 12%positive) true false
        heap_cancelled {[1%positive]} ∅ world0
        (trace st_cancelled ++ [Entry (CIpStartWatching 1%positive) [] heap_cancelled]).

(** The state after the Watch Backend has then reported an event for it. *)
Definition st_notified : state :=
  State [(1%nat, 1%positive)] true (Some 11%positive) (Some 12%positive) true false
        heap_cancelled {[1%positive]} ∅ world0
        (trace st_readded ++
         [Entry (CUserEcb 11%positive 1%positive "/a/b/foo" 256 7)
            [(1%nat, 1%positive)] heap_cancelled]).

Definition only_2 : foreach_pred := λ sub _, bool_decide (sub = 2%positive).

(** Two registered subscriptions, inside a locked section. *)
Definition st_two_locked : state :=
  State [(2%nat, 2%positive); (1%nat, 1%positive)] true None None true true heap0
        {[1%positive]} {[2%positive]} world0 [].

(** A world in which every subscription can be watched and no path
    exists. *)
Definition world_promote : world := World true (λ _, true) (λ _, false).

(** The state after start-up, the admission of subscription 3 while it
    cannot be watched, a change of the world to [world_promote] and a
    rescan: the scanner has promoted subscription 3, and the found adapter
    has suppressed the callback because ["/a/g"] does not exist. *)
Definition st_promoted : state :=
  State [(1%nat, 3%positive)] true (Some 11%positive) (Some 12%positive) true false
        heap0 {[3%positive]} ∅ world_promote
        [Entry CIpStartup [] heap0; Entry CImStartup [] heap0; Entry CIdStartup [] heap0;
         Entry (CIpStartWatching 3%positive) [] heap0;
         Entry (CImAdd 3%positive) [] heap0;
         Entry (CIpStartWatching 3%positive) [(1%nat, 3%positive)] heap0].

(** ** Further notions *)

(** The function-local [result] of [ih_startup] agrees with [initialized]:
    the registry is only ever marked initialised by a call that succeeded. *)
Definition startup_consistent (st : state) : Prop :=
  initialized st = true → result st = true.

(** The list is well formed: its nodes have distinct addresses and no
    subscription is held by two nodes. *)
Definition list_wf (st : state) : Prop :=
  NoDup (sub_list st).*1 ∧ NoDup (contents (sub_list st)).

(** No subscription is owned by both collaborators. *)
Definition owned_once (st : state) : Prop :=
  ∀ sub, ¬ (watching st sub ∧ missing st sub).

(** A stretch of the trace without any call of a user callback. *)
Definition no_user_callback (new : list entry) : Prop :=
  ∀ e, e ∈ new → callback_subject (e_call e) = None.

(** The steps made by the two producers, as opposed to the calls of the
    client. *)
Definition is_producer (o : op) : bool :=
  match o with
  | OpEvent _ _ | OpScan _ => true
  | _ => false
  end.

(** What a visit of the enumeration leaves alone: the start-up state, the
    recorded callbacks, the lock, and the world; it keeps the list well
    formed and makes no call of a user callback. *)
Definition visit_frame (st st' : state) : Prop :=
  initialized st' = initialized st ∧ user_ecb st' = user_ecb st ∧
  user_fcb st' = user_fcb st ∧ result st' = result st ∧
  inotify_lock st' = inotify_lock st ∧ env st' = env st ∧
  (list_wf st → list_wf st') ∧
  ∃ new, trace st' = trace st ++ new ∧ no_user_callback new.

(** A world in which inotify cannot be initialised, and one in which
    nothing can be watched. *)
Definition world_down : world := World false (λ _, false) (λ _, false).

Definition st_down : state :=
  State [] false None None false false heap0 ∅ ∅ world_down [].

Definition never : foreach_pred := λ _ _, false.

(** The state after a successful start-up and the admission of
    subscription 1. *)
Definition st_one : state :=
  State [(1%nat, 1%positive)] true (Some 11%positive) (Some 12%positive) true false
        heap0 {[1%positive]} ∅ world0
        [Entry CIpStartup [] heap0; Entry CImStartup [] heap0; Entry CIdStartup [] heap0;
         Entry (CIpStartWatching 1%positive) [] heap0].

(** The state after a first, successful start-up of a fresh process. *)
Definition st_started : state :=
  State [] true (Some 11%positive) (Some 12%positive) true false heap0 ∅ ∅ world0
        [Entry CIpStartup [] heap0; Entry CImStartup [] heap0; Entry CIdStartup [] heap0].

(** * Properties *)

(** ** Running monadic code *)

Ltac unfold_monad :=
  unfold mbind, M_bind, bind, mret, M_ret, ret, raise, gets, modify, log,
    g_warning, IH_W, ih_debug_enabled, g_assert, deref, G_LOCK, G_UNLOCK in *.

Lemma bind_done {A B} (m : M A) (k : A → M B) st a st' :
  m st = Done a st' → (m ≫= k) st = k a st'.
Proof. unfold mbind, M_bind, bind. by intros ->. Qed.

Lemma bind_fault {A B} (m : M A) (k : A → M B) st f :
  m st = Fault f → (m ≫= k) st = Fault f.
Proof. unfold mbind, M_bind, bind. by intros ->. Qed.

Lemma bind_inv {A B} (m : M A) (k : A → M B) st b st' :
  (m ≫= k) st = Done b st' →
  ∃ a st1, m st = Done a st1 ∧ k a st1 = Done b st'.
Proof.
  unfold mbind, M_bind, bind. destruct (m st) as [a st1|]; [eauto | done].
Qed.

(** ** The list functions of glib *)

Lemma g_list_find_None (l : glist) data :
  g_list_find l data = None ↔ data ∉ contents l.
Proof.
  unfold contents. induction l as [|[a d] l IH]; simpl.
  - split; [intros _; apply not_elem_of_nil | done].
  - case_decide as Hx.
    + subst. split; [done | intros []; left].
    + rewrite IH, not_elem_of_cons. naive_solver.
Qed.

Lemma new_node_fresh (l : glist) : new_node l ∉ l.*1.
Proof. apply max_list_not_elem_of_gt. unfold new_node. lia. Qed.

Lemma g_list_remove_notin (l : glist) data :
  data ∉ contents l → g_list_remove l data = l.
Proof.
  unfold contents. induction l as [|[a d] l IH]; simpl; [done|].
  rewrite not_elem_of_cons. intros [Hne Hl].
  case_decide; [congruence | by rewrite IH].
Qed.

Lemma elem_of_g_list_remove (l : glist) data n :
  n ∈ g_list_remove l data → n ∈ l.
Proof.
  induction l as [|[a d] l IH]; simpl; [done|].
  case_decide; rewrite ?elem_of_cons; naive_solver.
Qed.

Lemma elem_of_contents_g_list_remove (l : glist) data x :
  x ∈ contents (g_list_remove l data) → x ∈ contents l.
Proof.
  unfold contents. intros ([a d] & -> & Hn)%list_elem_of_fmap.
  apply list_elem_of_fmap. exists (a, d). split; [done|].
  by eapply elem_of_g_list_remove.
Qed.

Lemma elem_of_contents_g_list_remove_ne (l : glist) data x :
  x ≠ data → x ∈ contents l → x ∈ contents (g_list_remove l data).
Proof.
  unfold contents. intros Hne. induction l as [|[a d] l IH]; simpl; [done|].
  case_decide; simpl; rewrite ?elem_of_cons; naive_solver.
Qed.

Lemma NoDup_contents_g_list_remove (l : glist) data :
  NoDup (contents l) → NoDup (contents (g_list_remove l data)).
Proof.
  unfold contents. induction l as [|[a d] l IH]; simpl; [done|].
  intros [Hd Hl]%NoDup_cons. case_decide; [done|]. simpl.
  apply NoDup_cons. split; [|by apply IH].
  intros Hin. by apply Hd, (elem_of_contents_g_list_remove _ data).
Qed.

Lemma NoDup_nodes_g_list_remove (l : glist) data :
  NoDup l.*1 → NoDup (g_list_remove l data).*1.
Proof.
  induction l as [|[a d] l IH]; simpl; [done|].
  intros [Ha Hl]%NoDup_cons. case_decide; [done|]. simpl.
  apply NoDup_cons. split; [|by apply IH].
  intros ([a' d'] & Heq & Hn)%list_elem_of_fmap. simpl in Heq. subst a'.
  apply Ha, list_elem_of_fmap. exists (a, d').
  split; [done|]. by eapply elem_of_g_list_remove.
Qed.

Lemma g_list_remove_gone (l : glist) data :
  NoDup (contents l) → data ∉ contents (g_list_remove l data).
Proof.
  unfold contents. induction l as [|[a d] l IH]; simpl; [intros _; apply not_elem_of_nil|].
  intros [Hd Hl]%NoDup_cons. case_decide; [by subst|]. simpl.
  rewrite not_elem_of_cons. naive_solver.
Qed.

(** Unlinking a node that holds [data] leaves the nodes behind a node that
    holds [data] where they are. *)
Lemma g_list_remove_keeps_rest (pre rest : glist) (a : nat) (data : ptr) :
  ∃ pre', g_list_remove (pre ++ (a, data) :: rest) data = pre' ++ rest.
Proof.
  induction pre as [|[b d] pre [pre' IH]]; simpl.
  - rewrite decide_True by done. by exists [].
  - case_decide.
    + by exists (pre ++ [(a, data)]); rewrite <- app_assoc.
    + exists ((b, d) :: pre'). by rewrite IH.
Qed.

(** Reading the node at the head of what lies ahead, in a list whose nodes
    have distinct addresses. *)
Lemma node_at_middle (pre rest : glist) (a : nat) (data : ptr) :
  NoDup (pre ++ (a, data) :: rest).*1 →
  node_at (pre ++ (a, data) :: rest) a = Some (data, first_node rest).
Proof.
  induction pre as [|[b d] pre IH]; simpl.
  - intros _. by rewrite decide_True.
  - intros [Hb Hnd]%NoDup_cons. rewrite decide_False; [by apply IH|].
    intros ->. apply Hb. rewrite fmap_app, elem_of_app. right. left.
Qed.

(** ** Cancellation *)

(** What [ih_sub_cancel] does on an allocated subscription, in one equation. *)
Lemma ih_sub_cancel_eq (st : state) (sub : ptr) (s : ih_sub_t) :
  heap st !! sub = Some s →
  ih_sub_cancel sub st =
    if cancelled s then Done true st
    else if bool_decide (sub ∈ contents (sub_list st)) then
      let marked := <[sub := set_cancelled true s]> (heap st) in
      Done true
        (State (g_list_remove (sub_list st) sub)
           (initialized st) (user_ecb st) (user_fcb st) (result st) (inotify_lock st)
           marked (ip_watched st ∖ {[sub]}) (im_missing st ∖ {[sub]}) (env st)
           (trace st ++ [Entry (CImRm sub) (sub_list st) marked;
                         Entry (CIpStopWatching sub) (sub_list st) marked]))
    else Fault AssertFail.
Proof.
  intros Hsub. unfold ih_sub_cancel. unfold_monad.
  rewrite Hsub. destruct (cancelled s); simpl; [done|].
  destruct (decide (sub ∈ contents (sub_list st))) as [Hin|Hin].
  - rewrite (bool_decide_true (sub ∈ _)) by done.
    rewrite bool_decide_true by (intros Hf; by apply g_list_find_None in Hf).
    simpl. unfold set_sub_list, set_ip_watched, set_trace, set_im_missing, set_heap.
    simpl.
    assert (alter (set_cancelled true) sub (heap st)
            = <[sub := set_cancelled true s]> (heap st)) as ->.
    { apply map_eq. intros i. destruct (decide (i = sub)) as [->|Hne].
      - by rewrite lookup_alter_eq, lookup_insert_eq, Hsub.
      - by rewrite lookup_alter_ne, lookup_insert_ne. }
    by rewrite <- app_assoc.
  - rewrite (bool_decide_false (sub ∈ _)) by done.
    rewrite bool_decide_false; [done|].
    intros Hf. apply Hf. by apply g_list_find_None.
Qed.

(** C3. Cancelling a subscription whose [cancelled] flag is already set does
    nothing: [ih_sub_cancel] returns TRUE and the whole state (the list, the
    subscription objects, both tracking sets, and the trace, so that no
    scanner or backend call is made) is the one it started from. *)
Theorem ih_sub_cancel_idempotent (st : state) (sub : ptr) (s : ih_sub_t) :
  heap st !! sub = Some s →
  cancelled s = true →
  ih_sub_cancel sub st = Done true st.
Proof.
  intros Hsub Hc. by rewrite (ih_sub_cancel_eq st sub s Hsub), Hc.
Qed.

Lemma ih_sub_cancel_idempotent_witness :
  ih_sub_cancel 1%positive st_cancelled = Done true st_cancelled.
Proof.
  apply (ih_sub_cancel_idempotent _ 1%positive (set_cancelled true sub_dir)).
  - reflexivity.
  - reflexivity.
Defined.

(** C2. Cancelling a subscription whose flag is clear: when it is in the
    list, [ih_sub_cancel] sets the flag, then calls [im_rm], then
    [ip_stop_watching] (both see the flag set and the subscription still in
    the list), and last unlinks its node from the list; when it is not in
    the list, the assertion fails.  Setting the flag leaves the other
    fields of the object as they are. *)
Theorem ih_sub_cancel_live (st : state) (sub : ptr) (s : ih_sub_t) :
  heap st !! sub = Some s →
  cancelled s = false →
  ih_sub_cancel sub st =
    if bool_decide (sub ∈ contents (sub_list st)) then
      let marked :=
        <[sub := Sub (pathname s) (dirname s) (filename s) (usersubdata s) true]> (heap st) in
      Done true
        (State (g_list_remove (sub_list st) sub)
           (initialized st) (user_ecb st) (user_fcb st) (result st) (inotify_lock st)
           marked (ip_watched st ∖ {[sub]}) (im_missing st ∖ {[sub]}) (env st)
           (trace st ++ [Entry (CImRm sub) (sub_list st) marked;
                         Entry (CIpStopWatching sub) (sub_list st) marked]))
    else Fault AssertFail.
Proof.
  intros Hsub Hc. by rewrite (ih_sub_cancel_eq st sub s Hsub), Hc.
Qed.

Lemma ih_sub_cancel_live_witness :
  ih_sub_cancel 1%positive st_two_locked
  = Done true
      (State [(2%nat, 2%positive)] true None None true true
         (<[1%positive := set_cancelled true sub_dir]> heap0)
         ({[1%positive]} ∖ {[1%positive]}) ({[2%positive]} ∖ {[1%positive]}) world0
         [Entry (CImRm 1%positive) [(2%nat, 2%positive); (1%nat, 1%positive)]
            (<[1%positive := set_cancelled true sub_dir]> heap0);
          Entry (CIpStopWatching 1%positive) [(2%nat, 2%positive); (1%nat, 1%positive)]
            (<[1%positive := set_cancelled true sub_dir]> heap0)])
  ∧ ih_sub_cancel 3%positive st_two_locked = Fault AssertFail.
Proof.
  split.
  - rewrite (ih_sub_cancel_live _ 1%positive sub_dir); reflexivity.
  - rewrite (ih_sub_cancel_live _ 3%positive sub_gone); reflexivity.
Defined.

(** ** Admission *)

(** What [ih_sub_add] does on an allocated subscription, in one equation. *)
Lemma ih_sub_add_eq (st : state) (sub : ptr) (s : ih_sub_t) :
  inotify_lock st = false →
  heap st !! sub = Some s →
  ih_sub_add sub st =
    if bool_decide (sub ∈ contents (sub_list st)) then Fault AssertFail
    else
      let ok := can_watch (env st) s in
      Done true
        (State (g_list_prepend (sub_list st) sub)
           (initialized st) (user_ecb st) (user_fcb st) (result st) false
           (heap st)
           (if ok then {[sub]} ∪ ip_watched st else ip_watched st)
           (if ok then im_missing st else {[sub]} ∪ im_missing st)
           (env st)
           (trace st ++
            Entry (CIpStartWatching sub) (sub_list st) (heap st) ::
            if ok then [] else [Entry (CImAdd sub) (sub_list st) (heap st)])).
Proof.
  intros Hlock Hsub. unfold ih_sub_add. unfold_monad. rewrite Hlock. simpl.
  destruct (decide (sub ∈ contents (sub_list st))) as [Hin|Hin].
  - rewrite (bool_decide_true (sub ∈ _)) by done.
    rewrite bool_decide_false; [done|].
    intros Hf. by apply g_list_find_None in Hf.
  - rewrite (bool_decide_false (sub ∈ _)) by done.
    rewrite bool_decide_true by (by apply g_list_find_None).
    unfold ip_start_watching, im_add. unfold_monad. simpl. rewrite Hsub. simpl.
    destruct (can_watch (env st) s); simpl; [done|].
    unfold set_sub_list, set_trace, set_im_missing, set_inotify_lock. simpl.
    by rewrite <- app_assoc.
Qed.

(** C5. [ih_sub_add] on a subscription that is not in the list returns TRUE
    whatever the Watch Backend answers: when [ip_start_watching] succeeds
    the backend owns the subscription (Watching) and nothing else is called;
    when it declines, [im_add] hands the subscription to the scanner
    (Missing); either way the subscription is held by a new node at the
    head of the list, in front of the nodes that were there. *)
Theorem ih_sub_add_spec (st : state) (sub : ptr) (s : ih_sub_t) :
  inotify_lock st = false →
  heap st !! sub = Some s →
  sub ∉ contents (sub_list st) →
  ∃ st',
    ih_sub_add sub st = Done true st' ∧
    sub_list st' = (new_node (sub_list st), sub) :: sub_list st ∧
    contents (sub_list st') = sub :: contents (sub_list st) ∧
    heap st' = heap st ∧
    (if can_watch (env st) s
     then watching st' sub ∧ im_missing st' = im_missing st ∧
          trace st' = trace st ++ [Entry (CIpStartWatching sub) (sub_list st) (heap st)]
     else missing st' sub ∧ ip_watched st' = ip_watched st ∧
          trace st' = trace st ++ [Entry (CIpStartWatching sub) (sub_list st) (heap st);
                                   Entry (CImAdd sub) (sub_list st) (heap st)]).
Proof.
  intros Hlock Hsub Hin.
  rewrite (ih_sub_add_eq st sub s Hlock Hsub), bool_decide_false by done.
  eexists. split; [done|]. simpl.
  split; [done|]. split; [done|]. split; [done|].
  unfold watching, missing. destruct (can_watch (env st) s); simpl.
  - split; [set_solver | done].
  - split; [set_solver | done].
Qed.

Lemma ih_sub_add_spec_witness :
  ∃ st',
    ih_sub_add 2%positive st0 = Done true st' ∧
    sub_list st' = [(1%nat, 2%positive)] ∧
    contents (sub_list st') = [2%positive] ∧
    heap st' = heap0 ∧
    missing st' 2%positive ∧ ip_watched st' = ∅ ∧
    trace st' = [Entry (CIpStartWatching 2%positive) [] heap0;
                 Entry (CImAdd 2%positive) [] heap0].
Proof.
  apply (ih_sub_add_spec st0 2%positive sub_file).
  - reflexivity.
  - reflexivity.
  - apply not_elem_of_nil.
Defined.

(** ** Start-up *)

Lemma ih_startup_initialized (st : state) ecb fcb :
  initialized st = true →
  inotify_lock st = false →
  ih_startup ecb fcb st = Done (result st) st.
Proof.
  intros Hini Hlock. unfold ih_startup. unfold_monad.
  rewrite Hlock. simpl. rewrite Hini. simpl.
  destruct st; simpl in *. by subst.
Qed.

Lemma ih_startup_done (st st1 : state) ecb fcb r :
  inotify_lock st = false →
  ih_startup ecb fcb st = Done r st1 →
  inotify_lock st1 = false ∧ (initialized st1 = true → result st1 = r).
Proof.
  intros Hlock. unfold ih_startup, ip_startup, im_startup, id_startup.
  unfold_monad. rewrite Hlock. simpl.
  destruct (initialized st) eqn:Hini; simpl.
  - intros [= <- <-]. by destruct st; simpl in *.
  - destruct (inotify_ok (env st)) eqn:Hok; simpl.
    + intros [= <- <-]. done.
    + intros [= <- <-]. simpl. split; [done|]. by rewrite Hini.
Qed.

(** C6. Once a call of [ih_startup] has left the registry initialised, every
    later call, with whatever callbacks, returns the result of that call
    and leaves the state as it is: no collaborator is initialised again
    (the trace is unchanged) and the recorded callbacks stay. *)
Theorem ih_startup_idempotent (st st1 : state) ecb fcb ecb' fcb' (r : bool) :
  inotify_lock st = false →
  ih_startup ecb fcb st = Done r st1 →
  initialized st1 = true →
  ih_startup ecb' fcb' st1 = Done r st1.
Proof.
  intros Hlock Hrun Hini.
  destruct (ih_startup_done _ _ _ _ _ Hlock Hrun) as [Hlock1 Hres].
  rewrite ih_startup_initialized by done. by rewrite Hres.
Qed.

Lemma ih_startup_idempotent_witness :
  ih_startup (Some 21%positive) (Some 22%positive)
    (State [] true (Some 11%positive) (Some 12%positive) true false heap0 ∅ ∅ world0
       [Entry CIpStartup [] heap0; Entry CImStartup [] heap0; Entry CIdStartup [] heap0])
  = Done true
    (State [] true (Some 11%positive) (Some 12%positive) true false heap0 ∅ ∅ world0
       [Entry CIpStartup [] heap0; Entry CImStartup [] heap0; Entry CIdStartup [] heap0]).
Proof.
  apply (ih_startup_idempotent st0 _ (Some 11%positive) (Some 12%positive)); reflexivity.
Defined.

(** ** The dispatch adapters *)

(** C9. One event in, one call of the user's event callback out: the path
    is the directory, a slash, and the event's name when it has one; the
    mask is the event's and the user data the subscription's.  Nothing but
    the trace changes. *)
Theorem ih_event_callback_once (st : state) (event : ik_event_t) (sub : ptr)
    (s : ih_sub_t) (cb : positive) :
  heap st !! sub = Some s →
  user_ecb st = Some cb →
  ih_event_callback event sub st =
    Done tt
      (State (sub_list st) (initialized st) (user_ecb st) (user_fcb st) (result st)
         (inotify_lock st) (heap st) (ip_watched st) (im_missing st) (env st)
         (trace st ++
          [Entry
             (CUserEcb cb sub
                match name event with
                | Some n => dirname s +:+ "/" +:+ n
                | None => dirname s +:+ "/"
                end
                (mask event) (usersubdata s))
             (sub_list st) (heap st)])).
Proof.
  intros Hsub Hcb. unfold ih_event_callback. unfold_monad.
  destruct st; simpl in *. by rewrite Hsub, Hcb.
Qed.

Lemma ih_event_callback_once_witness :
  ih_event_callback (Event (Some "foo") 256) 1%positive st_three
  = Done tt
      (set_trace [Entry (CUserEcb 11%positive 1%positive "/a/b/foo" 256 7)
                    list_three heap0] st_three)
  ∧ ih_event_callback (Event None 256) 1%positive st_three
  = Done tt
      (set_trace [Entry (CUserEcb 11%positive 1%positive "/a/b/" 256 7)
                    list_three heap0] st_three).
Proof.
  split.
  - rewrite (ih_event_callback_once _ _ 1%positive sub_dir 11%positive); reflexivity.
  - rewrite (ih_event_callback_once _ _ 1%positive sub_dir 11%positive); reflexivity.
Defined.

(** C8. The found adapter: with a filename, the user's found callback is
    called, once, with directory, slash, filename and the subscription's
    user data exactly when that path exists, and not at all otherwise;
    without a filename it is called, once, with directory and slash,
    whatever exists. *)
Theorem ih_found_callback_spec (st : state) (sub : ptr) (s : ih_sub_t) (cb : positive) :
  heap st !! sub = Some s →
  user_fcb st = Some cb →
  ih_found_callback sub st =
    match filename s with
    | Some fn =>
        if file_exists (env st) (dirname s +:+ "/" +:+ fn) then
          Done tt
            (State (sub_list st) (initialized st) (user_ecb st) (user_fcb st) (result st)
               (inotify_lock st) (heap st) (ip_watched st) (im_missing st) (env st)
               (trace st ++
                [Entry (CUserFcb cb sub (dirname s +:+ "/" +:+ fn) (usersubdata s))
                   (sub_list st) (heap st)]))
        else Done tt st
    | None =>
        Done tt
          (State (sub_list st) (initialized st) (user_ecb st) (user_fcb st) (result st)
             (inotify_lock st) (heap st) (ip_watched st) (im_missing st) (env st)
             (trace st ++
              [Entry (CUserFcb cb sub (dirname s +:+ "/") (usersubdata s))
                 (sub_list st) (heap st)]))
    end.
Proof.
  intros Hsub Hcb. unfold ih_found_callback. unfold_monad.
  destruct st; simpl in *. rewrite Hsub. simpl.
  destruct (filename s) as [fn|]; simpl;
    [destruct (file_exists _ _); simpl|]; by rewrite ?Hcb.
Qed.

Lemma ih_found_callback_spec_witness :
  ih_found_callback 2%positive st_three
  = Done tt (set_trace [Entry (CUserFcb 12%positive 2%positive "/a/f" 8)
                          list_three heap0] st_three)
  ∧ ih_found_callback 3%positive st_three = Done tt st_three
  ∧ ih_found_callback 1%positive st_three
  = Done tt (set_trace [Entry (CUserFcb 12%positive 1%positive "/a/b/" 7)
                          list_three heap0] st_three).
Proof.
  split; [|split].
  - rewrite (ih_found_callback_spec st_three 2%positive sub_file 12%positive); reflexivity.
  - rewrite (ih_found_callback_spec st_three 3%positive sub_gone 12%positive); reflexivity.
  - rewrite (ih_found_callback_spec st_three 1%positive sub_dir 12%positive); reflexivity.
Defined.

(** C10 (amended). When the found adapter suppresses the callback (a
    filename is given and the rebuilt path does not exist) it returns with
    the state it was given: the subscription's flag, the list, both
    tracking sets and the trace are untouched, so the adapter neither
    cancels the subscription nor hands it back to the scanner.  Whether the
    subscription is watched or parked afterwards is what it was before the
    call. *)
Theorem ih_found_callback_suppressed_frame (st : state) (sub : ptr) (s : ih_sub_t)
    (fn : string) :
  heap st !! sub = Some s →
  filename s = Some fn →
  file_exists (env st) (dirname s +:+ "/" +:+ fn) = false →
  ih_found_callback sub st = Done tt st.
Proof.
  intros Hsub Hfn Hgone. unfold ih_found_callback. unfold_monad.
  by rewrite Hsub, Hfn, Hgone.
Qed.

Lemma ih_found_callback_suppressed_frame_witness :
  ih_found_callback 3%positive st_three = Done tt st_three.
Proof.
  apply (ih_found_callback_suppressed_frame _ 3%positive sub_gone "g"); reflexivity.
Defined.

(** C10 as stated fails in its last clause: a suppressed callback does not
    leave the subscription neither watched nor rescanned.  Subscription 3
    is parked as missing; once the Watch Backend accepts it the scanner
    promotes it and calls the found adapter, which suppresses the callback
    because the path does not exist; the adapter changes nothing, and the
    subscription is watched.  Called in [st_three], where subscription 3 is
    parked with the scanner, the adapter suppresses the callback and the
    subscription is still parked with the scanner. *)
Lemma ih_found_callback_suppressed_counterexample :
  run [OpStartup (Some 11%positive) (Some 12%positive); OpAdd 3%positive;
       OpWorld world_promote; OpScan 3%positive] st0 = Done tt st_promoted ∧
  Forall (λ e, callback_subject (e_call e) = None) (trace st_promoted) ∧
  heap st_promoted !! 3%positive = Some sub_gone ∧
  filename sub_gone = Some "g" ∧
  file_exists (env st_promoted) (dirname sub_gone +:+ "/" +:+ "g") = false ∧
  ih_found_callback 3%positive st_promoted = Done tt st_promoted ∧
  watching st_promoted 3%positive ∧
  ¬ (¬ watching st_promoted 3%positive ∧ ¬ missing st_promoted 3%positive) ∧
  ih_found_callback 3%positive st_three = Done tt st_three ∧
  missing st_three 3%positive ∧
  ¬ (¬ watching st_three 3%positive ∧ ¬ missing st_three 3%positive).
Proof.
  assert (Hw : watching st_promoted 3%positive)
    by (unfold watching; simpl; set_solver).
  assert (Hm : missing st_three 3%positive)
    by (unfold missing; simpl; set_solver).
  split; [vm_compute; reflexivity|].
  split; [by repeat constructor|].
  split; [reflexivity|]. split; [reflexivity|]. split; [reflexivity|].
  split; [vm_compute; reflexivity|].
  split; [done|].
  split; [intros [Hn _]; by apply Hn|].
  split; [vm_compute; reflexivity|].
  split; [done|].
  intros [_ Hn]. by apply Hn.
Qed.

(** ** Bulk enumeration *)

(** One visit: the predicate, then on TRUE the cancellation and, when
    asked for, the release. *)
Lemma foreach_body_spec (f : foreach_pred) (free : bool) (sub : ptr) (st : state)
    (s : ih_sub_t) :
  heap st !! sub = Some s →
  (cancelled s = false → sub ∈ contents (sub_list st)) →
  NoDup (contents (sub_list st)) →
  ∃ st1 new,
    foreach_body f free sub st = Done tt st1 ∧
    trace st1 = trace st ++ new ∧
    e_call <$> new = visit_calls f free (heap st) sub ∧
    (∀ x, x ≠ sub → heap st1 !! x = heap st !! x) ∧
    heap st1 !! sub =
      (if f sub s then if free then None else Some (set_cancelled true s) else Some s) ∧
    NoDup (contents (sub_list st1)) ∧
    (∀ x, x ∈ contents (sub_list st1) ↔
          x ∈ contents (sub_list st) ∧ ¬ struck f (heap st) [sub] x) ∧
    (∀ x, x ∈ ip_watched st1 ↔ x ∈ ip_watched st ∧ ¬ struck f (heap st) [sub] x) ∧
    (∀ x, x ∈ im_missing st1 ↔ x ∈ im_missing st ∧ ¬ struck f (heap st) [sub] x) ∧
    initialized st1 = initialized st ∧ user_ecb st1 = user_ecb st ∧
    user_fcb st1 = user_fcb st ∧ result st1 = result st ∧
    inotify_lock st1 = inotify_lock st ∧ env st1 = env st.
Proof.
  intros Hsub Hin Hnd.
  assert (Hstruck : ∀ x, struck f (heap st) [sub] x ↔
                         x = sub ∧ f sub s = true ∧ cancelled s = false).
  { intros x. unfold struck. rewrite list_elem_of_singleton. split.
    - intros [-> (s' & Hs' & ? & ?)]. by simplify_eq.
    - intros (-> & ? & ?). eauto. }
  unfold foreach_body, call_predicate, visit_calls.
  rewrite Hsub.
  unfold mbind at 1, M_bind at 1, bind at 1.
  unfold mbind at 1, M_bind at 1, bind at 1. unfold deref at 1. rewrite Hsub.
  unfold mbind at 1, M_bind at 1, bind at 1. unfold log at 1, modify at 1.
  unfold mret at 1, M_ret at 1, ret at 1.
  set (st1 := set_trace _ st).
  destruct (f sub s) eqn:Hf.
  2:{ exists st1, [Entry (CPredicate sub) (sub_list st) (heap st)].
      unfold mret, M_ret, ret. simpl.
      split_and!; try done; intros x; rewrite Hstruck; naive_solver. }
  unfold mbind at 1, M_bind at 1, bind at 1.
  rewrite (ih_sub_cancel_eq st1 sub s Hsub).
  destruct (cancelled s) eqn:Hc.
  - (* the flag was set: the cancellation is a no-op *)
    assert (set_cancelled true s = s) as Hs by (by destruct s; simpl in *; subst).
    destruct free.
    + unfold ih_sub_free. unfold_monad. simpl. rewrite Hsub. simpl.
      eexists _, [_; _]. split; [done|]. simpl.
      split; [by rewrite <- app_assoc|].
      split; [done|].
      split; [intros x Hx; by rewrite lookup_delete_ne|].
      split; [by rewrite lookup_delete_eq|].
      split_and!; try done; intros x; rewrite Hstruck; naive_solver.
    + exists st1, [Entry (CPredicate sub) (sub_list st) (heap st)].
      unfold mret, M_ret, ret. simpl. rewrite Hs.
      split_and!; try done; intros x; rewrite Hstruck; naive_solver.
  - (* the flag was clear: the subscription is in the list *)
    rewrite bool_decide_true by (by apply Hin).
    cbv zeta. simpl.
    assert (Hl : ∀ x, x ∈ contents (g_list_remove (sub_list st) sub) ↔
                      x ∈ contents (sub_list st) ∧ ¬ struck f (heap st) [sub] x).
    { intros x. rewrite Hstruck. split.
      - intros Hx. split; [by eapply elem_of_contents_g_list_remove|].
        intros (-> & _). by eapply g_list_remove_gone.
      - intros [Hx Hn]. apply elem_of_contents_g_list_remove_ne; [|done].
        intros ->. by apply Hn. }
    assert (Hw : ∀ (X : gset ptr) x,
               x ∈ X ∖ {[sub]} ↔ x ∈ X ∧ ¬ struck f (heap st) [sub] x).
    { intros X x. rewrite Hstruck. set_solver. }
    destruct free.
    + unfold ih_sub_free. unfold_monad. simpl. rewrite lookup_insert_eq. simpl.
      eexists _, [_; _; _; _]. split; [done|]. simpl.
      split; [by rewrite <- !app_assoc|].
      split; [done|].
      split; [intros x Hx; by rewrite lookup_delete_ne, lookup_insert_ne|].
      split; [by rewrite lookup_delete_eq|].
      split; [by apply NoDup_contents_g_list_remove|].
      split_and!; try done; try apply Hl; try apply Hw.
    + unfold mret, M_ret, ret.
      eexists _, [_; _; _]. split; [done|]. simpl.
      split; [by rewrite <- !app_assoc|].
      split; [done|].
      split; [intros x Hx; by rewrite lookup_insert_ne|].
      split; [by rewrite lookup_insert_eq|].
      split; [by apply NoDup_contents_g_list_remove|].
      split_and!; try done; try apply Hl; try apply Hw.
Qed.

Lemma flat_map_visit_calls_ext f free (h1 h2 : gmap ptr ih_sub_t) (l : list ptr) :
  (∀ x, x ∈ l → h1 !! x = h2 !! x) →
  flat_map (visit_calls f free h1) l = flat_map (visit_calls f free h2) l.
Proof.
  induction l as [|y l IH]; simpl; [done|].
  intros Hl. unfold visit_calls at 1 3. rewrite (Hl y) by left.
  f_equal. apply IH. intros x Hx. apply Hl. by right.
Qed.

Lemma omap_visited_visit_calls f free (h : gmap ptr ih_sub_t) (l : list ptr) :
  (∀ x, x ∈ l → is_Some (h !! x)) →
  omap visited (flat_map (visit_calls f free h) l) = l.
Proof.
  induction l as [|y l IH]; simpl; [done|].
  intros Hl. rewrite omap_app, IH by (intros x Hx; apply Hl; by right).
  destruct (Hl y) as [s Hs]; [left|].
  unfold visit_calls. rewrite Hs. simpl.
  by destruct (f y s), (cancelled s), free.
Qed.

(** The visits of the subscriptions [l], one after the other. *)
Lemma foreach_seq_spec (f : foreach_pred) (free : bool) (l : list ptr) :
  ∀ st,
  NoDup l →
  NoDup (contents (sub_list st)) →
  (∀ sub, sub ∈ l →
     ∃ s, heap st !! sub = Some s ∧
          (cancelled s = false → sub ∈ contents (sub_list st))) →
  ∃ st' new,
    foreach_seq f free l st = Done tt st' ∧
    trace st' = trace st ++ new ∧
    e_call <$> new = flat_map (visit_calls f free (heap st)) l ∧
    (∀ x, x ∉ l → heap st' !! x = heap st !! x) ∧
    (∀ x s, x ∈ l → heap st !! x = Some s →
       heap st' !! x =
         if f x s then if free then None else Some (set_cancelled true s) else Some s) ∧
    NoDup (contents (sub_list st')) ∧
    (∀ x, x ∈ contents (sub_list st') ↔
          x ∈ contents (sub_list st) ∧ ¬ struck f (heap st) l x) ∧
    (∀ x, x ∈ ip_watched st' ↔ x ∈ ip_watched st ∧ ¬ struck f (heap st) l x) ∧
    (∀ x, x ∈ im_missing st' ↔ x ∈ im_missing st ∧ ¬ struck f (heap st) l x) ∧
    initialized st' = initialized st ∧ user_ecb st' = user_ecb st ∧
    user_fcb st' = user_fcb st ∧ result st' = result st ∧
    inotify_lock st' = inotify_lock st ∧ env st' = env st.
Proof.
  induction l as [|sub next IH]; intros st Hl Hnd Hlive.
  - exists st, []. simpl. rewrite app_nil_r.
    assert (∀ x, ¬ struck f (heap st) [] x)
      by (intros x [Hx _]; by apply not_elem_of_nil in Hx).
    split_and!; try done.
    + intros x s Hx. by apply not_elem_of_nil in Hx.
    + naive_solver.
    + naive_solver.
    + naive_solver.
  - apply NoDup_cons in Hl as [Hsub Hnext].
    destruct (Hlive sub) as (s & Hs & Hin); [left|].
    destruct (foreach_body_spec f free sub st s Hs Hin Hnd)
      as (st1 & new1 & Hrun1 & Htr1 & Hcalls1 & Hframe1 & Hheap1 & Hnd1 &
          Hlist1 & Hw1 & Hm1 & Hi1 & He1 & Hf1 & Hr1 & Hk1 & Hv1).
    assert (Hsame : ∀ x, x ∈ next → heap st1 !! x = heap st !! x).
    { intros x Hx. apply Hframe1. intros ->. done. }
    assert (Hsingle : ∀ x, x ∈ next → ¬ struck f (heap st) [sub] x).
    { intros x Hx [Hx' _]. apply list_elem_of_singleton in Hx' as ->. done. }
    destruct (IH st1 Hnext Hnd1) as
      (st' & new2 & Hrun2 & Htr2 & Hcalls2 & Hframe2 & Hheap2 & Hnd2 &
       Hlist2 & Hw2 & Hm2 & Hi2 & He2 & Hf2 & Hr2 & Hk2 & Hv2).
    { intros x Hx. destruct (Hlive x) as (s' & Hs' & Hin'); [by right|].
      exists s'. rewrite Hsame by done. split; [done|].
      intros Hc. apply Hlist1. split; [by apply Hin'|by apply Hsingle]. }
    assert (Hstruck : ∀ x, struck f (heap st) (sub :: next) x ↔
                           struck f (heap st) [sub] x ∨ struck f (heap st1) next x).
    { intros x. unfold struck. rewrite elem_of_cons, list_elem_of_singleton.
      split.
      - intros [[->|Hx] Hrest]; [by left|].
        right. split; [done|]. by rewrite Hsame.
      - intros [[-> Hrest]|[Hx Hrest]]; [by split; [left|]|].
        split; [by right|]. by rewrite <- Hsame. }
    exists st', (new1 ++ new2).
    split. { simpl. by rewrite (bind_done _ _ _ _ _ Hrun1). }
    split. { by rewrite Htr2, Htr1, app_assoc. }
    split. { simpl. rewrite fmap_app, Hcalls1, Hcalls2.
             f_equal. by apply flat_map_visit_calls_ext. }
    split. { intros x Hx. apply not_elem_of_cons in Hx as [Hne Hx].
             rewrite Hframe2 by done. by apply Hframe1. }
    split. { intros x s' Hx Hs'. apply elem_of_cons in Hx as [->|Hx].
             - rewrite Hframe2 by done. by simplify_eq.
             - apply Hheap2; [done|]. by rewrite Hsame. }
    split; [done|].
    split. { intros x. rewrite Hlist2, Hlist1, Hstruck. tauto. }
    split. { intros x. rewrite Hw2, Hw1, Hstruck. tauto. }
    split. { intros x. rewrite Hm2, Hm1, Hstruck. tauto. }
    split_and!; congruence.
Qed.


(** The node list after one visit: as it was, or with the first node that
    holds the visited subscription unlinked. *)
Lemma foreach_body_list (f : foreach_pred) (free : bool) (sub : ptr) (st st1 : state) :
  foreach_body f free sub st = Done tt st1 →
  sub_list st1 = sub_list st ∨ sub_list st1 = g_list_remove (sub_list st) sub.
Proof.
  unfold foreach_body, call_predicate.
  intros (b & st2 & Hpred & Hrest)%bind_inv.
  assert (sub_list st2 = sub_list st ∧ heap st2 = heap st) as [Hl2 Hh2].
  { revert Hpred. unfold_monad. destruct (heap st !! sub); [|done].
    by intros [= <- <-]. }
  destruct b; [|injection Hrest as <-; by left].
  apply bind_inv in Hrest as (r & st3 & Hcancel & Hfree).
  assert (sub_list st1 = sub_list st3) as ->.
  { destruct free; [|by injection Hfree as <-].
    revert Hfree. unfold ih_sub_free. unfold_monad.
    destruct (heap st3 !! sub); [|done]. by intros [= <-]. }
  destruct (heap st2 !! sub) as [s|] eqn:Hs.
  2:{ revert Hcancel. unfold ih_sub_cancel. unfold_monad. by rewrite Hs. }
  rewrite (ih_sub_cancel_eq st2 sub s Hs) in Hcancel.
  destruct (cancelled s); [injection Hcancel as <- <-; by left|].
  case_bool_decide; [|done]. cbv zeta in Hcancel.
  injection Hcancel as <- <-. right. simpl. by rewrite Hl2.
Qed.

(** The loop over the nodes does what the sequence of visits of their
    subscriptions does: no iteration unlinks a node that lies ahead, so the
    [next] that was read before the body ran is the node to go on with, and
    one iteration per node is all it takes. *)
Lemma foreach_loop_unroll (f : foreach_pred) (free : bool) (rest : glist) :
  ∀ (fuel : nat) (pre : glist) (st : state),
  sub_list st = pre ++ rest →
  NoDup (sub_list st).*1 →
  (length rest ≤ fuel)%nat →
  foreach_loop fuel f free (first_node rest) st
  = foreach_seq f free (contents rest) st.
Proof.
  induction rest as [|[a sub] rest IH]; intros fuel pre st Hlist Hnd Hfuel.
  - by destruct fuel.
  - destruct fuel as [|fuel]; [simpl in Hfuel; lia|].
    simpl. unfold mbind at 1, M_bind at 1, bind at 1, gets at 1.
    rewrite Hlist, node_at_middle by (by rewrite <- Hlist).
    unfold mbind, M_bind, bind.
    destruct (foreach_body f free sub st) as [[] st1|] eqn:Hbody; [|done].
    assert (∃ pre', sub_list st1 = pre' ++ rest ∧ NoDup (sub_list st1).*1)
      as (pre' & Hlist1 & Hnd1).
    { destruct (foreach_body_list f free sub st st1 Hbody) as [Heq|Heq].
      - exists (pre ++ [(a, sub)]). rewrite Heq, Hlist, <- app_assoc. by rewrite <- Hlist.
      - destruct (g_list_remove_keeps_rest pre rest a sub) as [pre' Hpre'].
        exists pre'. rewrite Heq, Hlist. split; [done|].
        rewrite <- Hlist. by apply NoDup_nodes_g_list_remove. }
    apply (IH fuel pre' st1 Hlist1 Hnd1). simpl in Hfuel. lia.
Qed.

Lemma ih_sub_foreach_worker_eq (f : foreach_pred) (free : bool) (st : state) :
  inotify_lock st = false →
  NoDup (sub_list st).*1 →
  ih_sub_foreach_worker f free st =
    match foreach_seq f free (contents (sub_list st)) (set_inotify_lock true st) with
    | Done _ st' => Done tt (set_inotify_lock false st')
    | Fault flt => Fault flt
    end.
Proof.
  intros Hlock Hnd. unfold ih_sub_foreach_worker.
  unfold mbind at 1, M_bind at 1, bind at 1, G_LOCK at 1. rewrite Hlock.
  unfold mbind at 1, M_bind at 1, bind at 1, gets at 1.
  unfold mbind, M_bind, bind. cbn [sub_list set_inotify_lock].
  by rewrite (foreach_loop_unroll f free (sub_list st) _ [] (set_inotify_lock true st)).
Qed.

(** C4. [ih_sub_foreach] and [ih_sub_foreach_free], on a registry whose list
    holds no pointer twice and only allocated subscriptions, return, and
    the predicate's calls are exactly the subscriptions of the list as it was
    at the start, in order, each once, although the visits unlink nodes of
    the list that is being walked.  The calls of one visit follow the
    predicate's call at once and precede the next visit: on TRUE the
    cancellation and, in the releasing variant, the release.  Afterwards a
    subscription with a TRUE answer has its flag set (or is released, in the
    releasing variant) and, if its flag was clear, is out of the list and
    of both tracking sets; one with a FALSE answer is as it was and still in
    the list. *)
Theorem ih_sub_foreach_worker_spec (f : foreach_pred) (free : bool) (st : state) :
  inotify_lock st = false →
  NoDup (sub_list st).*1 →
  NoDup (contents (sub_list st)) →
  (∀ sub, sub ∈ contents (sub_list st) → is_Some (heap st !! sub)) →
  ∃ st' new,
    (if free then ih_sub_foreach_free f else ih_sub_foreach f) st = Done tt st' ∧
    trace st' = trace st ++ new ∧
    omap visited (e_call <$> new) = contents (sub_list st) ∧
    NoDup (omap visited (e_call <$> new)) ∧
    e_call <$> new = flat_map (visit_calls f free (heap st)) (contents (sub_list st)) ∧
    (∀ sub s, sub ∈ contents (sub_list st) → heap st !! sub = Some s →
       if f sub s then
         heap st' !! sub =
           (if free then None
            else Some (Sub (pathname s) (dirname s) (filename s) (usersubdata s) true)) ∧
         (cancelled s = false →
            (sub ∉ contents (sub_list st')) ∧ ¬ watching st' sub ∧ ¬ missing st' sub)
       else
         heap st' !! sub = Some s ∧ sub ∈ contents (sub_list st') ∧
         (watching st' sub ↔ watching st sub) ∧ (missing st' sub ↔ missing st sub)).
Proof.
  intros Hlock Hnodes Hnd Hlive.
  destruct (foreach_seq_spec f free (contents (sub_list st)) (set_inotify_lock true st)
              Hnd Hnd)
    as (st' & new & Hrun & Htr & Hcalls & _ & Hheap & _ & Hlist & Hw & Hm & _).
  { intros sub Hsub. destruct (Hlive sub Hsub) as [s Hs]. by exists s. }
  simpl in *.
  assert (Hworker : ih_sub_foreach_worker f free st
                    = Done tt (set_inotify_lock false st'))
    by (by rewrite ih_sub_foreach_worker_eq, Hrun).
  exists (set_inotify_lock false st'), new.
  split. { unfold ih_sub_foreach_free, ih_sub_foreach. by destruct free. }
  split; [done|].
  assert (Hvis : omap visited (e_call <$> new) = contents (sub_list st)).
  { rewrite Hcalls. by apply omap_visited_visit_calls. }
  split; [done|]. split; [by rewrite Hvis|]. split; [done|].
  intros sub s Hsub Hs. simpl. unfold watching, missing. simpl.
  specialize (Hheap sub s Hsub Hs).
  destruct (f sub s) eqn:Hf.
  - split; [done|]. intros Hc.
    assert (struck f (heap st) (contents (sub_list st)) sub) by (split; eauto).
    rewrite Hlist, Hw, Hm. tauto.
  - assert (¬ struck f (heap st) (contents (sub_list st)) sub).
    { intros (_ & s' & Hs' & Hf' & _). simplify_eq. congruence. }
    rewrite Hlist, Hw, Hm. tauto.
Qed.

Lemma ih_sub_foreach_worker_spec_witness :
  ∃ st' new,
    ih_sub_foreach_free only_2 st_three = Done tt st' ∧
    trace st' = new ∧
    omap visited (e_call <$> new) = [3%positive; 2%positive; 1%positive] ∧
    e_call <$> new = [CPredicate 3%positive; CPredicate 2%positive; CImRm 2%positive;
                      CIpStopWatching 2%positive; CSubFree 2%positive;
                      CPredicate 1%positive] ∧
    heap st' !! 2%positive = None ∧
    ((2%positive ∉ contents (sub_list st')) ∧
     ¬ watching st' 2%positive ∧ ¬ missing st' 2%positive) ∧
    heap st' !! 3%positive = Some sub_gone ∧ 3%positive ∈ contents (sub_list st').
Proof.
  destruct (ih_sub_foreach_worker_spec only_2 true st_three)
    as (st' & new & Hrun & Htr & Hvis & _ & Hcalls & Heach).
  - reflexivity.
  - repeat constructor; set_solver.
  - repeat constructor; set_solver.
  - intros sub Hsub. simpl in Hsub.
    repeat (apply elem_of_cons in Hsub as [->|Hsub]); [by eexists..|].
    by apply not_elem_of_nil in Hsub.
  - exists st', new.
    pose proof (Heach 2%positive sub_file) as H2.
    pose proof (Heach 3%positive sub_gone) as H3.
    simpl in H2, H3.
    split; [done|]. split; [done|]. split; [done|]. split; [done|].
    destruct H2 as [H2a H2b]; [set_solver | reflexivity |].
    destruct H3 as (H3a & H3b & _); [set_solver | reflexivity |].
    split; [done|]. split; [by apply H2b|]. done.
Defined.

(** ** The membership invariant *)

Lemma registry_inv_core (U : gset ptr) (st st' : state) :
  sub_list st' = sub_list st →
  heap st' = heap st →
  ip_watched st' = ip_watched st →
  im_missing st' = im_missing st →
  registry_inv U st → registry_inv U st'.
Proof.
  unfold registry_inv, flag_clear, watching, missing.
  by intros -> -> -> ->.
Qed.

Lemma flag_clear_core (st st' : state) (sub : ptr) :
  heap st' = heap st → flag_clear st' sub → flag_clear st sub.
Proof. unfold flag_clear. by intros ->. Qed.

Lemma calm_nil (st : state) : calm st [].
Proof. intros e sub He. by apply not_elem_of_nil in He. Qed.

Lemma calm_no_callback (st : state) (new : list entry) :
  (∀ e, e ∈ new → callback_subject (e_call e) = None) → calm st new.
Proof. intros Hnew e sub He Hcb. rewrite (Hnew e He) in Hcb. done. Qed.

Lemma ih_startup_frame (st st' : state) ecb fcb (r : bool) :
  ih_startup ecb fcb st = Done r st' →
  sub_list st' = sub_list st ∧ heap st' = heap st ∧
  ip_watched st' = ip_watched st ∧ im_missing st' = im_missing st ∧
  ∃ new, trace st' = trace st ++ new ∧ calm st new.
Proof.
  unfold ih_startup, ip_startup, im_startup, id_startup. unfold_monad.
  destruct (inotify_lock st); [done|]. simpl.
  destruct (initialized st); simpl.
  - intros [= <- <-]. simpl. split_and!; try done.
    exists []. rewrite app_nil_r. split; [done | apply calm_nil].
  - destruct (inotify_ok (env st)); simpl; intros [= <- <-]; simpl;
      (split_and!; try done).
    + eexists [_; _; _]. rewrite <- !app_assoc. split; [done|].
      apply calm_no_callback. intros e He.
      repeat (apply elem_of_cons in He as [->|He]; [done|]).
      by apply not_elem_of_nil in He.
    + eexists [_; _]. rewrite <- !app_assoc. split; [done|].
      apply calm_no_callback. intros e He.
      repeat (apply elem_of_cons in He as [->|He]; [done|]).
      by apply not_elem_of_nil in He.
Qed.

Lemma ip_event_frame (U : gset ptr) (st st' : state) event (sub : ptr) :
  registry_inv U st →
  ip_event event sub st = Done tt st' →
  sub_list st' = sub_list st ∧ heap st' = heap st ∧
  ip_watched st' = ip_watched st ∧ im_missing st' = im_missing st ∧
  ∃ new, trace st' = trace st ++ new ∧ calm st new.
Proof.
  intros (_ & _ & Htracked & Hclear & _).
  unfold ip_event, ih_event_callback. unfold_monad.
  destruct (inotify_lock st); [done|]. simpl.
  destruct (decide (sub ∈ ip_watched st)) as [Hw|Hw]; simpl.
  - destruct (heap st !! sub) eqn:Hsub; simpl; [|done].
    destruct (user_ecb st); simpl; [|done].
    intros [= <-]. simpl. split_and!; try done.
    eexists [_]. split; [done|].
    intros e x He Hcb. apply list_elem_of_singleton in He as ->.
    simpl in Hcb. simplify_eq. apply Hclear, Htracked. by left.
  - intros [= <-]. simpl. split_and!; try done.
    exists []. rewrite app_nil_r. split; [done | apply calm_nil].
Qed.

Lemma ih_found_callback_frame (st st' : state) (sub : ptr) :
  ih_found_callback sub st = Done tt st' →
  ∃ new, st' = set_trace (trace st ++ new) st ∧
         ∀ e, e ∈ new → callback_subject (e_call e) = Some sub.
Proof.
  assert (Hsame : st = set_trace (trace st ++ []) st)
    by (rewrite app_nil_r; by destruct st).
  assert (Hnil : ∀ e : entry, e ∈ [] → callback_subject (e_call e) = Some sub)
    by (intros e He; by apply not_elem_of_nil in He).
  assert (Hone : ∀ cb path data (e : entry),
            e ∈ [Entry (CUserFcb cb sub path data) (sub_list st) (heap st)] →
            callback_subject (e_call e) = Some sub)
    by (intros cb path data e He; by apply list_elem_of_singleton in He as ->).
  unfold ih_found_callback. unfold_monad.
  destruct (heap st !! sub) as [s|]; [|done].
  destruct (filename s) as [fn|]; simpl.
  - destruct (file_exists _ _); simpl.
    + destruct (user_fcb st); [|done]. intros [= <-]. eauto.
    + intros [= <-]. eauto.
  - destruct (user_fcb st); [|done]. intros [= <-]. eauto.
Qed.

Lemma im_scan_step (U : gset ptr) (st st' : state) (sub : ptr) :
  registry_inv U st →
  im_scan sub st = Done tt st' →
  registry_inv U st' ∧ heap st' = heap st ∧
  ∃ new, trace st' = trace st ++ new ∧ calm st new.
Proof.
  intros Hinv. pose proof Hinv as (Hnodes & Hnd & Htracked & Hclear & Hu).
  unfold im_scan, ip_start_watching. unfold_monad.
  destruct (inotify_lock st); [done|]. simpl.
  destruct (decide (sub ∈ im_missing st)) as [Hm|Hm]; simpl.
  2:{ intros [= <-]. split; [by apply (registry_inv_core U st)|].
      split; [done|]. exists []. simpl. rewrite app_nil_r.
      split; [done | apply calm_nil]. }
  assert (Hfc : flag_clear st sub) by (apply Hclear, Htracked; by right).
  destruct Hfc as (s & Hs & Hc). rewrite Hs. simpl.
  destruct (can_watch (env st) s); simpl.
  2:{ intros [= <-]. split; [by apply (registry_inv_core U st)|].
      split; [done|]. eexists [_]. simpl. split; [done|].
      apply calm_no_callback. intros e He.
      by apply list_elem_of_singleton in He as ->. }
  match goal with
  | |- context [ih_found_callback sub ?st2] =>
      destruct (ih_found_callback sub st2) as [[] st3|] eqn:Hfound; [|done]
  end.
  apply ih_found_callback_frame in Hfound as (new & -> & Hnew).
  intros [= <-]. simpl. split; [|split; [done|]].
  - unfold registry_inv, flag_clear, watching, missing in *. simpl.
    split; [done|]. split; [done|]. split; [|done].
    intros x. rewrite Htracked.
    destruct (decide (x = sub)) as [->|Hne]; set_solver.
  - eexists (_ :: new). rewrite <- app_assoc. split; [done|].
    intros e x He Hcb. apply elem_of_cons in He as [->|He]; [done|].
    rewrite (Hnew e He) in Hcb. simplify_eq. by exists s.
Qed.

Lemma ih_sub_add_step (U : gset ptr) (st st' : state) (sub : ptr) (r : bool) :
  registry_inv U st →
  flag_clear st sub →
  ih_sub_add sub st = Done r st' →
  registry_inv ({[sub]} ∪ U) st' ∧ heap st' = heap st ∧
  ∃ new, trace st' = trace st ++ new ∧ calm st new.
Proof.
  intros (Hnodes & Hnd & Htracked & Hclear & Hu) (s & Hs & Hc).
  destruct (inotify_lock st) eqn:Hlock.
  { unfold ih_sub_add. unfold_monad. by rewrite Hlock. }
  rewrite (ih_sub_add_eq st sub s Hlock Hs).
  case_bool_decide as Hin; [done|]. cbv zeta. intros [= <- <-].
  split; [|split; [done|]].
  - unfold registry_inv, flag_clear, watching, missing, contents in *. simpl.
    split; [constructor; [apply new_node_fresh | done]|].
    split; [by constructor|].
    split; [|split].
    + intros x. rewrite elem_of_cons, Htracked.
      destruct (can_watch (env st) s); set_solver.
    + intros x [->|Hx]%elem_of_cons; eauto.
    + intros x HxU Hx. destruct (decide (x = sub)) as [->|Hne]; [left|].
      right. apply Hu; [set_solver | done].
  - simpl. eexists. split; [done|].
    apply calm_no_callback. intros e He.
    destruct (can_watch (env st) s);
      repeat (apply elem_of_cons in He as [->|He]; [done|]);
      by apply not_elem_of_nil in He.
Qed.

Lemma ih_sub_cancel_step (U : gset ptr) (st st' : state) (sub : ptr) (r : bool) :
  registry_inv U st →
  ih_sub_cancel sub st = Done r st' →
  registry_inv U st'.
Proof.
  intros (Hnodes & Hnd & Htracked & Hclear & Hu).
  destruct (heap st !! sub) as [s|] eqn:Hs.
  2:{ unfold ih_sub_cancel. unfold_monad. by rewrite Hs. }
  rewrite (ih_sub_cancel_eq st sub s Hs).
  destruct (cancelled s) eqn:Hc; [by intros [= <- <-]|].
  case_bool_decide as Hin; [|done]. cbv zeta. intros [= <- <-].
  assert (Hl : ∀ x, x ∈ contents (g_list_remove (sub_list st) sub) ↔
                    x ∈ contents (sub_list st) ∧ x ≠ sub).
  { intros x. split.
    - intros Hx. split; [by eapply elem_of_contents_g_list_remove|].
      intros ->. by eapply g_list_remove_gone.
    - intros [Hx Hne]. by apply elem_of_contents_g_list_remove_ne. }
  unfold registry_inv, flag_clear, watching, missing in *. simpl.
  split; [by apply NoDup_nodes_g_list_remove|].
  split; [by apply NoDup_contents_g_list_remove|].
  split; [|split].
  - intros x. rewrite Hl, Htracked. set_solver.
  - intros x [Hx Hne]%Hl. rewrite lookup_insert_ne by done. by apply Hclear.
  - intros x HxU (s' & Hs' & Hc'). apply Hl.
    destruct (decide (x = sub)) as [->|Hne].
    + rewrite lookup_insert_eq in Hs'. by simplify_eq.
    + rewrite lookup_insert_ne in Hs' by done. split; [|done].
      apply Hu; eauto.
Qed.

Lemma visit_calls_no_callback f free (h : gmap ptr ih_sub_t) (l : list ptr) (c : call) :
  c ∈ flat_map (visit_calls f free h) l → callback_subject c = None.
Proof.
  induction l as [|y l IH]; simpl.
  - intros Hc. by apply not_elem_of_nil in Hc.
  - rewrite elem_of_app. intros [Hc|Hc]; [|by apply IH].
    unfold visit_calls in Hc. destruct (h !! y) as [s|].
    + destruct (f y s), (cancelled s), free; simpl in Hc;
        repeat (apply elem_of_cons in Hc as [->|Hc]; [done|]);
        by apply not_elem_of_nil in Hc.
    + by apply not_elem_of_nil in Hc.
Qed.

Lemma foreach_seq_nodes (f : foreach_pred) (free : bool) (l : list ptr) :
  ∀ st st', NoDup (sub_list st).*1 →
            foreach_seq f free l st = Done tt st' → NoDup (sub_list st').*1.
Proof.
  induction l as [|y l IH]; intros st st' Hnd; simpl.
  - by intros [= <-].
  - intros ([] & st1 & Hbody & Hseq)%bind_inv.
    apply (IH st1 st'); [|done].
    destruct (foreach_body_list f free y st st1 Hbody) as [-> | ->]; [done|].
    by apply NoDup_nodes_g_list_remove.
Qed.

Lemma ih_sub_foreach_worker_step (U : gset ptr) (st st' : state)
    (f : foreach_pred) (free : bool) :
  registry_inv U st →
  ih_sub_foreach_worker f free st = Done tt st' →
  registry_inv U st' ∧ (∀ sub, flag_clear st' sub → flag_clear st sub) ∧
  ∃ new, trace st' = trace st ++ new ∧ calm st new.
Proof.
  intros (Hnodes & Hnd & Htracked & Hclear & Hu).
  destruct (inotify_lock st) eqn:Hlock.
  { unfold ih_sub_foreach_worker. unfold_monad. by rewrite Hlock. }
  rewrite ih_sub_foreach_worker_eq by done.
  destruct (foreach_seq_spec f free (contents (sub_list st)) (set_inotify_lock true st)
              Hnd Hnd)
    as (st2 & new & Hrun & Htr & Hcalls & Hout & Hheap & Hnd2 & Hlist & Hw & Hm & _).
  { intros sub Hsub. destruct (Hclear sub Hsub) as (s & Hs & Hc).
    exists s. by split. }
  simpl in *. rewrite Hrun. intros [= <-].
  assert (Hnodes2 : NoDup (sub_list st2).*1)
    by (eapply foreach_seq_nodes; [|exact Hrun]; exact Hnodes).
  assert (Hold : ∀ x, flag_clear st2 x → flag_clear st x ∧
                      ¬ struck f (heap st) (contents (sub_list st)) x).
  { intros x (s2 & Hs2 & Hc2).
    destruct (decide (x ∈ contents (sub_list st))) as [Hx|Hx].
    - destruct (Hclear x Hx) as (s & Hs & Hc).
      specialize (Hheap x s Hx Hs). rewrite Hs2 in Hheap.
      destruct (f x s) eqn:Hf.
      + destruct free; by simplify_eq.
      + split; [by exists s|].
        intros (_ & s' & Hs' & Hf' & _). simplify_eq. congruence.
    - rewrite (Hout x Hx) in Hs2. split; [by exists s2|].
      by intros [? _]. }
  split; [|split].
  - unfold registry_inv, flag_clear, watching, missing in *. simpl.
    split; [done|]. split; [done|]. split; [|split].
    + intros x. rewrite Hlist, Hw, Hm, Htracked. tauto.
    + intros x [Hx Hns]%Hlist. destruct (Hclear x Hx) as (s & Hs & Hc).
      specialize (Hheap x s Hx Hs). exists s.
      destruct (f x s) eqn:Hf; [|done].
      exfalso. apply Hns. split; eauto.
    + intros x HxU Hx2. destruct (Hold x Hx2) as [Hx Hns].
      apply Hlist. split; [|done]. by apply Hu.
  - intros x Hx. by apply Hold.
  - exists new. split; [done|].
    apply calm_no_callback. intros e He.
    apply (visit_calls_no_callback f free (heap st) (contents (sub_list st))).
    rewrite <- Hcalls. by apply list_elem_of_fmap_2.
Qed.

(** One step of the system, made from a state that satisfies the
    invariant: the invariant holds afterwards, no flag has been cleared and
    no object allocated, and every user callback made during the step was
    for a subscription whose flag was clear when the step began. *)
Lemma exec_step (U : gset ptr) (st st' : state) (o : op) :
  registry_inv U st →
  admissible o st →
  exec o st = Done tt st' →
  registry_inv (admitted o ∪ U) st' ∧
  (∀ sub, flag_clear st' sub → flag_clear st sub) ∧
  ∃ new, trace st' = trace st ++ new ∧ calm st new.
Proof.
  intros Hinv Hadm Hrun.
  destruct o as [ecb fcb| |sub|f|f|event sub|sub|w]; simpl in *.
  - apply bind_inv in Hrun as (r & st1 & Hrun & [= <-]).
    apply ih_startup_frame in Hrun as (Hl & Hh & Hw & Hm & Hnew).
    rewrite union_empty_l_L.
    split; [by apply (registry_inv_core U st)|].
    split; [intros sub; by apply flag_clear_core | done].
  - injection Hrun as <-. rewrite union_empty_l_L.
    split; [done|]. split; [done|].
    exists []. rewrite app_nil_r. split; [done | apply calm_nil].
  - apply bind_inv in Hrun as (r & st1 & Hrun & [= <-]).
    destruct (ih_sub_add_step U st st1 sub r Hinv Hadm Hrun) as (? & Hh & ?).
    split; [done|]. split; [intros x; by apply flag_clear_core | done].
  - rewrite union_empty_l_L. by apply (ih_sub_foreach_worker_step U st st' f false).
  - rewrite union_empty_l_L. by apply (ih_sub_foreach_worker_step U st st' f true).
  - destruct (ip_event_frame U st st' event sub Hinv Hrun) as (Hl & Hh & Hw & Hm & Hnew).
    rewrite union_empty_l_L.
    split; [by apply (registry_inv_core U st)|].
    split; [intros x; by apply flag_clear_core | done].
  - destruct (im_scan_step U st st' sub Hinv Hrun) as (? & Hh & ?).
    rewrite union_empty_l_L.
    split; [done|]. split; [intros x; by apply flag_clear_core | done].
  - injection Hrun as <-. rewrite union_empty_l_L.
    split; [by apply (registry_inv_core U st)|]. split; [done|].
    exists []. simpl. rewrite app_nil_r. split; [done | apply calm_nil].
Qed.

Lemma initial_registry_inv (st : state) : initial st → registry_inv ∅ st.
Proof.
  intros (Hl & Hw & Hm & _).
  unfold registry_inv, watching, missing. rewrite Hl, Hw, Hm. simpl.
  split; [constructor|]. split; [constructor|]. split; [|split].
  - intros sub. set_solver.
  - intros sub Hsub. by apply not_elem_of_nil in Hsub.
  - intros sub Hsub. set_solver.
Qed.

(** C1 (amended). The membership invariant (no pointer twice in the list; in
    the list exactly when Watching or Missing; in the list exactly when the
    flag is clear, for the subscriptions handed to the registry) holds in a
    fresh process and is kept by
    every step made from outside a locked section ([ih_startup],
    [ih_running], [ih_sub_add], [ih_sub_foreach], [ih_sub_foreach_free], an
    event of the Watch Backend, a rescan of the scanner, a change of the
    world) provided [ih_sub_add] is handed a subscription whose flag is
    clear, and by [ih_sub_cancel]. *)
Theorem registry_inv_preserved (U : gset ptr) (st : state) :
  (initial st → registry_inv ∅ st) ∧
  (registry_inv U st →
   (∀ o st', admissible o st → exec o st = Done tt st' →
             registry_inv (admitted o ∪ U) st') ∧
   (∀ sub r st', ih_sub_cancel sub st = Done r st' → registry_inv U st')).
Proof.
  split; [apply initial_registry_inv|].
  intros Hinv. split.
  - intros o st' Hadm Hrun. by apply (exec_step U st st' o).
  - intros sub r st'. by apply ih_sub_cancel_step.
Qed.

Lemma registry_inv_preserved_witness :
  registry_inv (admitted (OpAdd 2%positive) ∪ ∅)
    (State [(1%nat, 2%positive)] false None None false false heap0 ∅
       ({[2%positive]} ∪ ∅) world0
       [Entry (CIpStartWatching 2%positive) [] heap0; Entry (CImAdd 2%positive) [] heap0]).
Proof.
  destruct (registry_inv_preserved ∅ st0) as [Hinit Hstep].
  destruct Hstep as [Hexec _].
  - apply Hinit. by repeat split.
  - apply (Hexec (OpAdd 2%positive)).
    + exists sub_file. split; reflexivity.
    + reflexivity.
Defined.

(** C1 as stated fails: after the public calls that lead to [st_cancelled]
    the invariant holds, subscription 1 is not in the list, so that
    [ih_sub_add] accepts it, and afterwards it is in the list with its
    [cancelled] flag set. *)
Lemma registry_inv_readd_counterexample :
  run [OpStartup (Some 11%positive) (Some 12%positive); OpAdd 1%positive; OpForeach always]
      st0 = Done tt st_cancelled ∧
  registry_inv {[1%positive]} st_cancelled ∧
  (1%positive ∉ contents (sub_list st_cancelled)) ∧
  ih_sub_add 1%positive st_cancelled = Done true st_readded ∧
  1%positive ∈ contents (sub_list st_readded) ∧
  is_cancelled st_readded 1%positive ∧
  ¬ registry_inv ({[1%positive]} ∪ {[1%positive]}) st_readded.
Proof.
  split; [vm_compute; reflexivity|].
  split.
  { unfold registry_inv, watching, missing, flag_clear. simpl.
    split; [constructor|]. split; [constructor|]. split; [|split].
    - intros sub. set_solver.
    - intros sub Hsub. by apply not_elem_of_nil in Hsub.
    - intros sub ->%elem_of_singleton (s & Hs & Hc).
      vm_compute in Hs. by simplify_eq. }
  split; [apply not_elem_of_nil|].
  split; [vm_compute; reflexivity|].
  split; [left|].
  split; [exists (set_cancelled true sub_dir); by split|].
  intros (_ & _ & _ & Hclear & _).
  destruct (Hclear 1%positive) as (s & Hs & Hc); [left|].
  vm_compute in Hs. by simplify_eq.
Qed.

(** ** No callback for a cancelled subscription *)

Lemma run_calm (ops : list op) :
  ∀ (U : gset ptr) (st st' : state),
  registry_inv U st →
  admissible_run ops st →
  run ops st = Done tt st' →
  (∃ U', registry_inv U' st') ∧
  (∀ sub, flag_clear st' sub → flag_clear st sub) ∧
  ∃ new, trace st' = trace st ++ new ∧ calm st new.
Proof.
  induction ops as [|o ops IH]; intros U st st' Hinv Hadm Hrun; simpl in *.
  - injection Hrun as <-. split; [by exists U|]. split; [done|].
    exists []. rewrite app_nil_r. split; [done | apply calm_nil].
  - destruct Hadm as [Hadm Hrest].
    apply bind_inv in Hrun as ([] & st1 & Hstep & Hrun).
    rewrite Hstep in Hrest.
    destruct (exec_step U st st1 o Hinv Hadm Hstep) as (Hinv1 & Hmono1 & new1 & Htr1 & Hcalm1).
    destruct (IH _ st1 st' Hinv1 Hrest Hrun) as (HU & Hmono2 & new2 & Htr2 & Hcalm2).
    split; [done|]. split; [by eauto|].
    exists (new1 ++ new2). split; [by rewrite Htr2, Htr1, app_assoc|].
    intros e sub [He|He]%elem_of_app Hcb; [by eapply Hcalm1|].
    apply Hmono1. by eapply Hcalm2.
Qed.

(** C7 (amended). In every run of public calls, Watch Backend events,
    scanner rescans and changes of the world that starts from a fresh
    process and hands [ih_sub_add] only subscriptions whose flag is clear:
    once a subscription's [cancelled] flag is set, nothing that follows
    invokes the user's event or found callback for it. *)
Theorem no_callback_after_cancel (st0 st1 st2 : state) (ops1 ops2 : list op)
    (sub : ptr) :
  initial st0 →
  admissible_run ops1 st0 →
  run ops1 st0 = Done tt st1 →
  is_cancelled st1 sub →
  admissible_run ops2 st1 →
  run ops2 st1 = Done tt st2 →
  ∃ new, trace st2 = trace st1 ++ new ∧
         ∀ e, e ∈ new → callback_subject (e_call e) ≠ Some sub.
Proof.
  intros Hinit Hadm1 Hrun1 (s & Hs & Hc) Hadm2 Hrun2.
  destruct (run_calm ops1 ∅ st0 st1) as ([U Hinv] & _); [by apply initial_registry_inv|done..|].
  destruct (run_calm ops2 U st1 st2 Hinv Hadm2 Hrun2) as (_ & _ & new & Htr & Hcalm).
  exists new. split; [done|].
  intros e He Hcb. destruct (Hcalm e sub He Hcb) as (s' & Hs' & Hc').
  simplify_eq. congruence.
Qed.

Lemma no_callback_after_cancel_witness :
  ∃ new, trace st_cancelled = trace st_cancelled ++ new ∧
         ∀ e, e ∈ new → callback_subject (e_call e) ≠ Some 1%positive.
Proof.
  apply (no_callback_after_cancel st0 st_cancelled st_cancelled
           [OpStartup (Some 11%positive) (Some 12%positive); OpAdd 1%positive;
            OpForeach always]
           [OpEvent (Event (Some "foo") 256) 1%positive; OpScan 1%positive]).
  - by repeat split.
  - vm_compute. split; [exact I|]. split; [|split; exact I].
    exists sub_dir. split; reflexivity.
  - vm_compute. reflexivity.
  - exists (set_cancelled true sub_dir). split; reflexivity.
  - vm_compute. split; [exact I|]. split; exact I.
  - vm_compute. reflexivity.
Defined.

(** C7 as stated fails: subscription 1 is cancelled in [st_cancelled];
    [ih_sub_add] accepts it again, the Watch Backend then reports an event
    for it, and [ih_event_callback] calls the user's event callback for it
    while its [cancelled] flag is set. *)
Lemma callback_after_cancel_counterexample :
  initial st0 ∧
  run [OpStartup (Some 11%positive) (Some 12%positive); OpAdd 1%positive; OpForeach always]
      st0 = Done tt st_cancelled ∧
  is_cancelled st_cancelled 1%positive ∧
  run [OpAdd 1%positive; OpEvent (Event (Some "foo") 256) 1%positive] st_cancelled
    = Done tt st_notified ∧
  last (trace st_notified)
    = Some (Entry (CUserEcb 11%positive 1%positive "/a/b/foo" 256 7)
              [(1%nat, 1%positive)] heap_cancelled) ∧
  is_cancelled st_notified 1%positive ∧
  ¬ ∃ new, trace st_notified = trace st_cancelled ++ new ∧
           ∀ e, e ∈ new → callback_subject (e_call e) ≠ Some 1%positive.
Proof.
  split; [by repeat split|].
  split; [vm_compute; reflexivity|].
  split; [exists (set_cancelled true sub_dir); by split|].
  split; [vm_compute; reflexivity|].
  split; [reflexivity|].
  split; [exists (set_cancelled true sub_dir); by split|].
  intros (new & Htr & Hno).
  change (trace st_notified) with
    (trace st_cancelled ++
     [Entry (CIpStartWatching 1%positive) [] heap_cancelled;
      Entry (CUserEcb 11%positive 1%positive "/a/b/foo" 256 7)
        [(1%nat, 1%positive)] heap_cancelled]) in Htr.
  apply app_inv_head in Htr as <-.
  eapply Hno; [right; left|]. done.
Qed.

(** * Further properties of inotify-helper.c *)

(** ** Start-up *)

(** X1. When inotify cannot be initialised, [ih_startup] warns, returns
    FALSE with the lock released, and records nothing: the registry stays
    uninitialised, the callbacks are the ones it had, and neither the
    scanner nor the diagnostics are started.  The failure does not latch: a
    later call, made when inotify is available, succeeds and records the
    callbacks of that call. *)
Theorem ih_startup_failure_retry (st : state) ecb fcb ecb' fcb' (w : world) :
  inotify_lock st = false →
  initialized st = false →
  inotify_ok (env st) = false →
  inotify_ok w = true →
  ∃ st1 st2,
    ih_startup ecb fcb st = Done false st1 ∧
    initialized st1 = false ∧ inotify_lock st1 = false ∧
    user_ecb st1 = user_ecb st ∧ user_fcb st1 = user_fcb st ∧
    e_call <$> trace st1 =
      (e_call <$> trace st) ++
      [CIpStartup; CWarning ("Could not initialize inotify" +:+ newline)] ∧
    ih_startup ecb' fcb' (set_env w st1) = Done true st2 ∧
    initialized st2 = true ∧ inotify_lock st2 = false ∧
    user_ecb st2 = ecb' ∧ user_fcb st2 = fcb' ∧
    e_call <$> trace st2 = (e_call <$> trace st1) ++ [CIpStartup; CImStartup; CIdStartup].
Proof.
  intros Hlock Hini Hdown Hup.
  unfold ih_startup, ip_startup, im_startup, id_startup. unfold_monad.
  rewrite Hlock. simpl. rewrite Hini. simpl. rewrite Hdown. simpl.
  eexists _, _. split; [done|]. simpl.
  do 4 (split; [done|]).
  split; [by rewrite !fmap_app, <- !app_assoc|].
  rewrite Hini. simpl. rewrite Hup. simpl.
  split; [done|]. simpl.
  do 4 (split; [done|]).
  by rewrite !fmap_app, <- !app_assoc.
Qed.

Lemma ih_startup_failure_retry_witness :
  ∃ st1 st2,
    ih_startup (Some 11%positive) (Some 12%positive) st_down = Done false st1 ∧
    initialized st1 = false ∧ inotify_lock st1 = false ∧
    user_ecb st1 = None ∧ user_fcb st1 = None ∧
    e_call <$> trace st1 =
      [] ++ [CIpStartup; CWarning ("Could not initialize inotify" +:+ newline)] ∧
    ih_startup (Some 21%positive) (Some 22%positive) (set_env world0 st1) = Done true st2 ∧
    initialized st2 = true ∧ inotify_lock st2 = false ∧
    user_ecb st2 = Some 21%positive ∧ user_fcb st2 = Some 22%positive ∧
    e_call <$> trace st2 = (e_call <$> trace st1) ++ [CIpStartup; CImStartup; CIdStartup].
Proof.
  apply (ih_startup_failure_retry st_down (Some 11%positive) (Some 12%positive)
           (Some 21%positive) (Some 22%positive) world0); reflexivity.
Defined.

(** X2. [ih_running] reports what [ih_startup] returned: from a state in
    which [result] agrees with [initialized] (as it does in a fresh
    process), whatever [ih_startup] returns is what [ih_running] answers
    next, without touching the state, and the agreement holds again. *)
Theorem ih_running_after_startup (st st1 : state) ecb fcb (r : bool) :
  startup_consistent st →
  ih_startup ecb fcb st = Done r st1 →
  ih_running st1 = Done r st1 ∧ startup_consistent st1.
Proof.
  unfold startup_consistent, ih_running, gets. intros Hcons.
  unfold ih_startup, ip_startup, im_startup, id_startup. unfold_monad.
  destruct (inotify_lock st); [done|]. simpl.
  destruct (initialized st) eqn:Hini; simpl.
  - intros [= <- <-]. simpl. rewrite Hini, Hcons by done. done.
  - destruct (inotify_ok (env st)); simpl; intros [= <- <-]; simpl.
    + done.
    + rewrite Hini. done.
Qed.

Lemma ih_running_after_startup_witness :
  ih_running (set_result false
               (set_trace [Entry CIpStartup [] heap0;
                           Entry (CWarning ("Could not initialize inotify" +:+ newline))
                             [] heap0] st_down))
  = Done false
      (set_result false
         (set_trace [Entry CIpStartup [] heap0;
                     Entry (CWarning ("Could not initialize inotify" +:+ newline))
                       [] heap0] st_down))
  ∧ startup_consistent
      (set_result false
         (set_trace [Entry CIpStartup [] heap0;
                     Entry (CWarning ("Could not initialize inotify" +:+ newline))
                       [] heap0] st_down)).
Proof.
  apply (ih_running_after_startup st_down _ (Some 11%positive) (Some 12%positive)).
  - intros Hini. discriminate Hini.
  - reflexivity.
Defined.

(** ** What the enumeration leaves alone *)

Lemma no_user_callback_nil : no_user_callback [].
Proof. intros e He. by apply not_elem_of_nil in He. Qed.

Lemma no_user_callback_app (new1 new2 : list entry) :
  no_user_callback new1 → no_user_callback new2 → no_user_callback (new1 ++ new2).
Proof. intros H1 H2 e [He|He]%elem_of_app; eauto. Qed.

Lemma visit_frame_refl (st : state) : visit_frame st st.
Proof.
  unfold visit_frame. split_and!; try done.
  exists []. rewrite app_nil_r. split; [done | apply no_user_callback_nil].
Qed.

Lemma visit_frame_trans (st1 st2 st3 : state) :
  visit_frame st1 st2 → visit_frame st2 st3 → visit_frame st1 st3.
Proof.
  intros (? & ? & ? & ? & ? & ? & Hwf1 & new1 & Htr1 & Hn1)
         (? & ? & ? & ? & ? & ? & Hwf2 & new2 & Htr2 & Hn2).
  unfold visit_frame. split_and!; try congruence; [by eauto|].
  exists (new1 ++ new2). split; [by rewrite Htr2, Htr1, app_assoc|].
  by apply no_user_callback_app.
Qed.

Lemma foreach_body_frame (f : foreach_pred) (free : bool) (sub : ptr) (st st1 : state) :
  foreach_body f free sub st = Done tt st1 → visit_frame st st1.
Proof.
  intros Hbody.
  assert (Hwf : list_wf st → list_wf st1).
  { unfold list_wf. intros [Hn Hc].
    destruct (foreach_body_list f free sub st st1 Hbody) as [-> | ->]; [done|].
    split; [by apply NoDup_nodes_g_list_remove | by apply NoDup_contents_g_list_remove]. }
  revert Hbody. unfold foreach_body, call_predicate.
  intros (b & st2 & Hpred & Hrest)%bind_inv.
  assert (st2 = set_trace (trace st ++ [Entry (CPredicate sub) (sub_list st) (heap st)]) st)
    as Hst2.
  { revert Hpred. unfold_monad. destruct (heap st !! sub); [|done].
    by intros [= <- <-]. }
  assert (Hone : ∀ c l h, callback_subject c = None → no_user_callback [Entry c l h]).
  { intros c l h Hc e He. by apply list_elem_of_singleton in He as ->. }
  assert (Hf2 : visit_frame st st2).
  { subst st2. unfold visit_frame. simpl. split_and!; try done. eexists. split; [done|].
    by apply Hone. }
  destruct b.
  2:{ injection Hrest as <-. destruct Hf2 as (? & ? & ? & ? & ? & ? & _ & ?).
      unfold visit_frame. by split_and!. }
  apply bind_inv in Hrest as (r & st3 & Hcancel & Hfree).
  assert (Hf3 : visit_frame st2 st3).
  { destruct (heap st2 !! sub) as [s|] eqn:Hs.
    2:{ revert Hcancel. unfold ih_sub_cancel. unfold_monad. by rewrite Hs. }
    rewrite (ih_sub_cancel_eq st2 sub s Hs) in Hcancel.
    destruct (cancelled s); [injection Hcancel as <- <-; apply visit_frame_refl|].
    case_bool_decide; [|done]. cbv zeta in Hcancel. injection Hcancel as <- <-.
    unfold visit_frame. simpl. split_and!; try done.
    - intros [Hn Hc]. split; simpl;
        [by apply NoDup_nodes_g_list_remove | by apply NoDup_contents_g_list_remove].
    - eexists. split; [done|]. intros e He.
      repeat (apply elem_of_cons in He as [->|He]; [done|]).
      by apply not_elem_of_nil in He. }
  assert (Hf1 : visit_frame st3 st1).
  { destruct free; [|injection Hfree as <-; apply visit_frame_refl].
    revert Hfree. unfold ih_sub_free. unfold_monad.
    destruct (heap st3 !! sub); [|done]. intros [= <-].
    unfold visit_frame. simpl. split_and!; try done. eexists. split; [done|].
    by apply Hone. }
  pose proof (visit_frame_trans _ _ _ (visit_frame_trans _ _ _ Hf2 Hf3) Hf1)
    as (? & ? & ? & ? & ? & ? & _ & ?).
  unfold visit_frame. by split_and!.
Qed.

Lemma foreach_loop_frame (f : foreach_pred) (free : bool) (fuel : nat) :
  ∀ (l : option nat) (st st' : state),
  foreach_loop fuel f free l st = Done tt st' → visit_frame st st'.
Proof.
  induction fuel as [|fuel IH]; intros l st st'.
  - destruct l; [done|]. intros [= <-]. apply visit_frame_refl.
  - destruct l as [a|]; [|intros [= <-]; apply visit_frame_refl].
    simpl. unfold mbind at 1, M_bind at 1, bind at 1, gets at 1.
    destruct (node_at (sub_list st) a) as [[sub next]|]; [|done].
    intros ([] & st1 & Hbody & Hloop)%bind_inv.
    eapply visit_frame_trans; [by eapply foreach_body_frame | by eapply IH].
Qed.

Lemma ih_sub_foreach_worker_frame (f : foreach_pred) (free : bool) (st st' : state) :
  ih_sub_foreach_worker f free st = Done tt st' →
  inotify_lock st = false ∧ inotify_lock st' = false ∧
  initialized st' = initialized st ∧ user_ecb st' = user_ecb st ∧
  user_fcb st' = user_fcb st ∧ result st' = result st ∧ env st' = env st ∧
  (list_wf st → list_wf st') ∧
  ∃ new, trace st' = trace st ++ new ∧ no_user_callback new.
Proof.
  unfold ih_sub_foreach_worker.
  intros ([] & st1 & Hlock & Hrest)%bind_inv.
  apply bind_inv in Hrest as (nodes & st2 & Hget & Hrest).
  apply bind_inv in Hrest as ([] & st3 & Hloop & Hunlock).
  injection Hget as <- <-.
  revert Hlock. unfold G_LOCK. destruct (inotify_lock st) eqn:Hl; [done|].
  intros [= <-].
  apply foreach_loop_frame in Hloop as (? & ? & ? & ? & ? & ? & Hwf & ?).
  injection Hunlock as <-. simpl in *. by split_and!.
Qed.

(** ** The steps of the system, whatever the state they start from *)

Lemma ih_startup_quiet (st st' : state) ecb fcb (r : bool) :
  ih_startup ecb fcb st = Done r st' →
  inotify_lock st = false ∧ inotify_lock st' = false ∧ sub_list st' = sub_list st ∧
  ∃ new, trace st' = trace st ++ new ∧ no_user_callback new.
Proof.
  unfold ih_startup, ip_startup, im_startup, id_startup. unfold_monad.
  destruct (inotify_lock st); [done|]. simpl.
  assert (Hquiet : ∀ new : list entry,
            Forall (λ e, callback_subject (e_call e) = None) new → no_user_callback new).
  { intros new Hall e He. by eapply Forall_forall in Hall. }
  destruct (initialized st); simpl.
  - intros [= <- <-]. simpl. split_and!; try done.
    exists []. rewrite app_nil_r. split; [done | apply no_user_callback_nil].
  - destruct (inotify_ok (env st)); simpl; intros [= <- <-]; simpl;
      (split_and!; try done).
    + eexists [_; _; _]. rewrite <- !app_assoc. split; [done|].
      apply Hquiet. by repeat constructor.
    + eexists [_; _]. rewrite <- !app_assoc. split; [done|].
      apply Hquiet. by repeat constructor.
Qed.

Lemma ih_sub_add_done (st st' : state) (sub : ptr) (r : bool) :
  ih_sub_add sub st = Done r st' →
  ∃ s, inotify_lock st = false ∧ heap st !! sub = Some s ∧
       (sub ∉ contents (sub_list st)) ∧ r = true ∧
       inotify_lock st' = false ∧
       sub_list st' = g_list_prepend (sub_list st) sub ∧
       ∃ new, trace st' = trace st ++ new ∧ no_user_callback new.
Proof.
  intros Hrun.
  destruct (inotify_lock st) eqn:Hlock.
  { revert Hrun. unfold ih_sub_add. unfold_monad. by rewrite Hlock. }
  destruct (heap st !! sub) as [s|] eqn:Hs.
  2:{ revert Hrun. unfold ih_sub_add, ip_start_watching. unfold_monad.
      rewrite Hlock. simpl. case_bool_decide; simpl; [|done]. by rewrite Hs. }
  rewrite (ih_sub_add_eq st sub s Hlock Hs) in Hrun.
  case_bool_decide as Hin; [done|]. cbv zeta in Hrun. injection Hrun as <- <-.
  exists s. simpl. split_and!; try done.
  eexists. split; [done|]. intros e He.
  destruct (can_watch (env st) s);
    repeat (apply elem_of_cons in He as [->|He]; [done|]);
    by apply not_elem_of_nil in He.
Qed.

Lemma ip_event_done (st st' : state) (event : ik_event_t) (sub : ptr) :
  ip_event event sub st = Done tt st' →
  inotify_lock st = false ∧ inotify_lock st' = false ∧ sub_list st' = sub_list st.
Proof.
  unfold ip_event, ih_event_callback. unfold_monad.
  destruct (inotify_lock st); [done|]. simpl.
  destruct (decide (sub ∈ ip_watched st)); simpl; [|by intros [= <-]].
  destruct (heap st !! sub); simpl; [|done].
  destruct (user_ecb st); simpl; [|done]. by intros [= <-].
Qed.

Lemma im_scan_done (st st' : state) (sub : ptr) :
  im_scan sub st = Done tt st' →
  inotify_lock st = false ∧ inotify_lock st' = false ∧ sub_list st' = sub_list st.
Proof.
  unfold im_scan, ip_start_watching. unfold_monad.
  destruct (inotify_lock st); [done|]. simpl.
  destruct (decide (sub ∈ im_missing st)); simpl; [|by intros [= <-]].
  destruct (heap st !! sub) as [s|]; simpl; [|done].
  destruct (can_watch (env st) s); simpl; [|by intros [= <-]].
  match goal with
  | |- context [ih_found_callback sub ?st2] =>
      destruct (ih_found_callback sub st2) as [[] st3|] eqn:Hfound; [|done]
  end.
  apply ih_found_callback_frame in Hfound as (new & -> & _).
  by intros [= <-].
Qed.

(** X3. Every call of a public function and every step of a producer that
    returns has released [inotify_lock], on every return path: a step made
    with the lock free leaves it free. *)
Theorem exec_releases_lock (o : op) (st st' : state) :
  inotify_lock st = false →
  exec o st = Done tt st' →
  inotify_lock st' = false.
Proof.
  intros Hlock Hrun.
  destruct o as [ecb fcb| |sub|f|f|event sub|sub|w]; simpl in Hrun.
  - apply bind_inv in Hrun as (r & st1 & Hrun & [= <-]).
    by apply ih_startup_quiet in Hrun as (_ & ? & _).
  - by injection Hrun as <-.
  - apply bind_inv in Hrun as (r & st1 & Hrun & [= <-]).
    by apply ih_sub_add_done in Hrun as (s & _ & _ & _ & _ & ? & _).
  - by apply ih_sub_foreach_worker_frame in Hrun as (_ & ? & _).
  - by apply ih_sub_foreach_worker_frame in Hrun as (_ & ? & _).
  - by apply ip_event_done in Hrun as (_ & ? & _).
  - by apply im_scan_done in Hrun as (_ & ? & _).
  - by injection Hrun as <-.
Qed.

Lemma exec_releases_lock_witness :
  inotify_lock
    (State [] false None None false false heap0 ∅ ∅ world_down
       [Entry CIpStartup [] heap0;
        Entry (CWarning ("Could not initialize inotify" +:+ newline)) [] heap0])
  = false.
Proof.
  apply (exec_releases_lock (OpStartup (Some 11%positive) (Some 12%positive)) st_down).
  - reflexivity.
  - reflexivity.
Defined.

(** X4. The list stays well formed whatever the client does: in every run
    of public calls and producer steps, with no condition on the
    subscriptions handed to [ih_sub_add], the nodes of the list keep
    distinct addresses and no subscription is ever held by two nodes. *)
Theorem list_wf_run (ops : list op) (st st' : state) :
  list_wf st →
  run ops st = Done tt st' →
  list_wf st'.
Proof.
  revert st. induction ops as [|o ops IH]; intros st Hwf; simpl.
  - by intros [= <-].
  - intros ([] & st1 & Hstep & Hrun)%bind_inv.
    apply (IH st1); [|done]. clear IH Hrun.
    destruct o as [ecb fcb| |sub|f|f|event sub|sub|w]; simpl in Hstep.
    + apply bind_inv in Hstep as (r & st2 & Hstep & [= <-]).
      apply ih_startup_quiet in Hstep as (_ & _ & Hl & _).
      unfold list_wf. by rewrite Hl.
    + by injection Hstep as <-.
    + apply bind_inv in Hstep as (r & st2 & Hstep & [= <-]).
      apply ih_sub_add_done in Hstep as (s & _ & _ & Hin & _ & _ & Hl & _).
      destruct Hwf as [Hn Hc]. unfold list_wf, contents in *.
      rewrite Hl. simpl. split; constructor; try done. apply new_node_fresh.
    + by apply ih_sub_foreach_worker_frame in Hstep as (_ & _ & _ & _ & _ & _ & _ & H & _); auto.
    + by apply ih_sub_foreach_worker_frame in Hstep as (_ & _ & _ & _ & _ & _ & _ & H & _); auto.
    + apply ip_event_done in Hstep as (_ & _ & Hl). unfold list_wf. by rewrite Hl.
    + apply im_scan_done in Hstep as (_ & _ & Hl). unfold list_wf. by rewrite Hl.
    + by injection Hstep as <-.
Qed.

Lemma list_wf_run_witness : list_wf st_readded.
Proof.
  apply (list_wf_run
           [OpStartup (Some 11%positive) (Some 12%positive); OpAdd 1%positive;
            OpForeach always; OpAdd 1%positive] st0).
  - split; constructor.
  - vm_compute. reflexivity.
Defined.

(** X5. The calls of the client never invoke a user callback: whatever
    [ih_startup], [ih_running], [ih_sub_add], [ih_sub_foreach] and
    [ih_sub_foreach_free] add to the trace, it holds no call of the event or
    found callback; these are only made on behalf of the two producers. *)
Theorem client_calls_no_callback (o : op) (st st' : state) :
  is_producer o = false →
  exec o st = Done tt st' →
  ∃ new, trace st' = trace st ++ new ∧ no_user_callback new.
Proof.
  intros Hclient Hrun.
  assert (Hnil : ∀ st, ∃ new, trace st = trace st ++ new ∧ no_user_callback new).
  { intros st1. exists []. rewrite app_nil_r. split; [done | apply no_user_callback_nil]. }
  destruct o as [ecb fcb| |sub|f|f|event sub|sub|w]; simpl in *; try done.
  - apply bind_inv in Hrun as (r & st1 & Hrun & [= <-]).
    by apply ih_startup_quiet in Hrun as (_ & _ & _ & ?).
  - injection Hrun as <-. apply Hnil.
  - apply bind_inv in Hrun as (r & st1 & Hrun & [= <-]).
    by apply ih_sub_add_done in Hrun as (s & _ & _ & _ & _ & _ & _ & ?).
  - by apply ih_sub_foreach_worker_frame in Hrun as (_ & _ & _ & _ & _ & _ & _ & _ & ?).
  - by apply ih_sub_foreach_worker_frame in Hrun as (_ & _ & _ & _ & _ & _ & _ & _ & ?).
  - injection Hrun as <-. apply (Hnil st).
Qed.

Lemma client_calls_no_callback_witness :
  ∃ new,
    trace (State [(1%nat, 2%positive)] false None None false false heap0 ∅
             ({[2%positive]} ∪ ∅) world0
             [Entry (CIpStartWatching 2%positive) [] heap0;
              Entry (CImAdd 2%positive) [] heap0])
    = trace st0 ++ new ∧ no_user_callback new.
Proof.
  apply (client_calls_no_callback (OpAdd 2%positive) st0); reflexivity.
Defined.

(** ** Admission and cancellation together *)

(** X6. A subscription cannot be registered twice: for an allocated
    subscription and the lock free, two calls of [ih_sub_add] in a row never
    both return; the assertion fails, in the first call if the subscription
    was in the list already and in the second otherwise. *)
Theorem ih_sub_add_twice (st : state) (sub : ptr) (s : ih_sub_t) :
  inotify_lock st = false →
  heap st !! sub = Some s →
  (ih_sub_add sub ≫= λ _, ih_sub_add sub) st = Fault AssertFail.
Proof.
  intros Hlock Hs.
  unfold mbind, M_bind, bind.
  rewrite (ih_sub_add_eq st sub s Hlock Hs).
  case_bool_decide as Hin; [done|]. cbv beta iota zeta.
  erewrite ih_sub_add_eq; [|done|exact Hs].
  rewrite bool_decide_true; [done|]. simpl. left.
Qed.

Lemma ih_sub_add_twice_witness :
  (ih_sub_add 1%positive ≫= λ _, ih_sub_add 1%positive) st0 = Fault AssertFail.
Proof.
  apply (ih_sub_add_twice st0 1%positive sub_dir); reflexivity.
Defined.

(** X7. Admission followed by cancellation is a round trip on the registry:
    for a subscription with a clear flag that neither the list nor a
    collaborator holds, [ih_sub_add] and then [ih_sub_cancel] leave the
    list, node for node, and both tracking sets as they were; what remains
    is the [cancelled] flag, now set. *)
Theorem ih_sub_add_cancel_roundtrip (st : state) (sub : ptr) (s : ih_sub_t) :
  inotify_lock st = false →
  heap st !! sub = Some s →
  cancelled s = false →
  sub ∉ contents (sub_list st) →
  ¬ watching st sub →
  ¬ missing st sub →
  ∃ st1 st2,
    ih_sub_add sub st = Done true st1 ∧
    ih_sub_cancel sub st1 = Done true st2 ∧
    sub_list st2 = sub_list st ∧
    ip_watched st2 = ip_watched st ∧
    im_missing st2 = im_missing st ∧
    heap st2 =
      <[sub := Sub (pathname s) (dirname s) (filename s) (usersubdata s) true]> (heap st).
Proof.
  unfold watching, missing. intros Hlock Hs Hc Hin Hw Hm.
  rewrite (ih_sub_add_eq st sub s Hlock Hs), bool_decide_false by done.
  cbv zeta. eexists _, _. split; [done|].
  erewrite ih_sub_cancel_eq by exact Hs. rewrite Hc.
  rewrite bool_decide_true by (simpl; left).
  cbv zeta. split; [done|]. simpl.
  rewrite decide_True by done.
  split; [done|].
  destruct (can_watch (env st) s); split_and!; try done; set_solver.
Qed.

Lemma ih_sub_add_cancel_roundtrip_witness :
  ∃ st1 st2,
    ih_sub_add 2%positive st0 = Done true st1 ∧
    ih_sub_cancel 2%positive st1 = Done true st2 ∧
    sub_list st2 = [] ∧
    ip_watched st2 = ∅ ∧
    im_missing st2 = ∅ ∧
    heap st2 = <[2%positive := set_cancelled true sub_file]> heap0.
Proof.
  apply (ih_sub_add_cancel_roundtrip st0 2%positive sub_file).
  - reflexivity.
  - reflexivity.
  - reflexivity.
  - apply not_elem_of_nil.
  - unfold watching. simpl. apply not_elem_of_empty.
  - unfold missing. simpl. apply not_elem_of_empty.
Defined.

(** ** More on the enumeration *)

Lemma foreach_seq_all_false (f : foreach_pred) (free : bool) (l : list ptr) :
  ∀ st,
  (∀ sub, sub ∈ l → ∃ s, heap st !! sub = Some s ∧ f sub s = false) →
  foreach_seq f free l st =
    Done tt (set_trace
               (trace st ++ ((λ sub, Entry (CPredicate sub) (sub_list st) (heap st)) <$> l))
               st).
Proof.
  induction l as [|sub l IH]; intros st Hl; simpl.
  - rewrite app_nil_r. by destruct st.
  - destruct (Hl sub) as (s & Hs & Hf); [left|].
    assert (foreach_body f free sub st
            = Done tt (set_trace (trace st ++ [Entry (CPredicate sub) (sub_list st) (heap st)])
                                 st)) as Hbody.
    { unfold foreach_body, call_predicate. unfold_monad. by rewrite Hs, Hf. }
    rewrite (bind_done _ _ _ _ _ Hbody), IH.
    + simpl. by rewrite <- app_assoc.
    + intros x Hx. simpl. apply Hl. by right.
Qed.

(** X8. An enumeration whose predicate answers FALSE for every subscription
    of the list is a pure inspection: it calls the predicate once on each,
    in list order, and returns with the state it was given, the list node
    for node, the objects, the ownership and the lock included; only the
    trace has grown. *)
Theorem ih_sub_foreach_all_false (f : foreach_pred) (free : bool) (st : state) :
  inotify_lock st = false →
  NoDup (sub_list st).*1 →
  (∀ sub, sub ∈ contents (sub_list st) → ∃ s, heap st !! sub = Some s ∧ f sub s = false) →
  ih_sub_foreach_worker f free st =
    Done tt
      (State (sub_list st) (initialized st) (user_ecb st) (user_fcb st) (result st)
         (inotify_lock st) (heap st) (ip_watched st) (im_missing st) (env st)
         (trace st ++
          ((λ sub, Entry (CPredicate sub) (sub_list st) (heap st))
             <$> contents (sub_list st)))).
Proof.
  intros Hlock Hnd Hfalse.
  rewrite ih_sub_foreach_worker_eq, foreach_seq_all_false by done.
  destruct st; simpl in *. by subst.
Qed.

Lemma ih_sub_foreach_all_false_witness :
  ih_sub_foreach_worker never true st_three =
    Done tt (set_trace
               [Entry (CPredicate 3%positive) list_three heap0;
                Entry (CPredicate 2%positive) list_three heap0;
                Entry (CPredicate 1%positive) list_three heap0]
               st_three).
Proof.
  rewrite (ih_sub_foreach_all_false never true st_three).
  - reflexivity.
  - reflexivity.
  - repeat constructor; set_solver.
  - intros sub Hsub. simpl in Hsub.
    repeat (apply elem_of_cons in Hsub as [->|Hsub]); [by eexists..|].
    by apply not_elem_of_nil in Hsub.
Defined.

(** X9. An enumeration whose predicate answers TRUE for every subscription
    empties the registry: from a state that satisfies the membership
    invariant it returns with an empty list and nothing tracked by either
    collaborator, and every subscription that was in the list is cancelled
    or, in the releasing variant, released. *)
Theorem ih_sub_foreach_all_true (U : gset ptr) (f : foreach_pred) (free : bool)
    (st : state) :
  registry_inv U st →
  inotify_lock st = false →
  (∀ sub s, sub ∈ contents (sub_list st) → heap st !! sub = Some s → f sub s = true) →
  ∃ st',
    ih_sub_foreach_worker f free st = Done tt st' ∧
    sub_list st' = [] ∧ ip_watched st' = ∅ ∧ im_missing st' = ∅ ∧
    ∀ sub s, sub ∈ contents (sub_list st) → heap st !! sub = Some s →
             heap st' !! sub =
               if free then None
               else Some (Sub (pathname s) (dirname s) (filename s) (usersubdata s) true).
Proof.
  intros (Hnodes & Hnd & Htracked & Hclear & Hu) Hlock Htrue.
  destruct (foreach_seq_spec f free (contents (sub_list st)) (set_inotify_lock true st)
              Hnd Hnd)
    as (st2 & new & Hrun & Htr & Hcalls & Hout & Hheap & Hnd2 & Hlist & Hw & Hm & _).
  { intros sub Hsub. destruct (Hclear sub Hsub) as (s & Hs & Hc).
    exists s. by split. }
  simpl in *.
  assert (Hall : ∀ x, x ∈ contents (sub_list st) →
                      struck f (heap st) (contents (sub_list st)) x).
  { intros x Hx. split; [done|]. destruct (Hclear x Hx) as (s & Hs & Hc).
    exists s. split_and!; eauto. }
  exists (set_inotify_lock false st2).
  split; [by rewrite ih_sub_foreach_worker_eq, Hrun|]. simpl.
  split.
  { destruct (sub_list st2) as [|[a d] l] eqn:Hl2; [done|].
    assert (d ∈ contents ((a, d) :: l)) as Hd by left.
    apply Hlist in Hd as [Hd Hn]. exfalso. by apply Hn, Hall. }
  split.
  { apply elem_of_equiv_empty_L. intros x [Hx Hn]%Hw.
    apply Hn, Hall, Htracked. by left. }
  split.
  { apply elem_of_equiv_empty_L. intros x [Hx Hn]%Hm.
    apply Hn, Hall, Htracked. by right. }
  intros sub s Hsub Hs. rewrite (Hheap sub s Hsub Hs).
  by rewrite (Htrue sub s Hsub Hs).
Qed.

Lemma ih_sub_foreach_all_true_witness :
  ∃ st',
    ih_sub_foreach_worker always true st_three = Done tt st' ∧
    sub_list st' = [] ∧ ip_watched st' = ∅ ∧ im_missing st' = ∅ ∧
    ∀ sub s, sub ∈ contents (sub_list st_three) → heap st_three !! sub = Some s →
             heap st' !! sub = None.
Proof.
  apply (ih_sub_foreach_all_true {[1%positive; 2%positive; 3%positive]} always true st_three).
  - unfold registry_inv, watching, missing, flag_clear. simpl.
    split; [repeat constructor; set_solver|].
    split; [repeat constructor; set_solver|].
    split; [intros sub; set_solver|].
    split.
    + intros sub Hsub.
      repeat (apply elem_of_cons in Hsub as [->|Hsub]); [by eexists..|].
      by apply not_elem_of_nil in Hsub.
    + intros sub Hsub _. set_solver.
  - reflexivity.
  - reflexivity.
Defined.

(** X10. Most recently added first: after [ih_sub_add] has admitted a
    subscription, the next enumeration calls the predicate on it first and
    then on the subscriptions that were registered before, in the order
    they had. *)
Theorem foreach_visits_newest_first (f : foreach_pred) (free : bool) (st : state)
    (sub : ptr) (s : ih_sub_t) :
  inotify_lock st = false →
  list_wf st →
  (∀ x, x ∈ contents (sub_list st) → is_Some (heap st !! x)) →
  heap st !! sub = Some s →
  sub ∉ contents (sub_list st) →
  ∃ st1 st2 new,
    ih_sub_add sub st = Done true st1 ∧
    ih_sub_foreach_worker f free st1 = Done tt st2 ∧
    trace st2 = trace st1 ++ new ∧
    omap visited (e_call <$> new) = sub :: contents (sub_list st).
Proof.
  intros Hlock [Hnodes Hnd] Hlive Hs Hin.
  pose proof (ih_sub_add_eq st sub s Hlock Hs) as Hadd.
  rewrite bool_decide_false in Hadd by done. cbv zeta in Hadd.
  match type of Hadd with _ = Done true ?x => set (st1 := x) in * end.
  exists st1.
  assert (Hnd1 : NoDup (contents (sub_list st1))) by (by constructor).
  assert (Hnodes1 : NoDup (sub_list st1).*1)
    by (simpl; constructor; [apply new_node_fresh | done]).
  assert (Hlive1 : ∀ x, x ∈ contents (sub_list st1) → is_Some (heap st1 !! x)).
  { intros x [->|Hx]%elem_of_cons; simpl; [by eexists | by apply Hlive]. }
  destruct (foreach_seq_spec f free (contents (sub_list st1)) (set_inotify_lock true st1)
              Hnd1 Hnd1)
    as (st2 & new & Hrun & Htr & Hcalls & _).
  { intros x Hx. destruct (Hlive1 x Hx) as [s' Hs']. by exists s'. }
  exists (set_inotify_lock false st2), new. split; [done|].
  split; [by rewrite ih_sub_foreach_worker_eq, Hrun|].
  split; [done|].
  rewrite Hcalls. by rewrite omap_visited_visit_calls.
Qed.

Lemma foreach_visits_newest_first_witness :
  ∃ st1 st2 new,
    ih_sub_add 2%positive st_readded = Done true st1 ∧
    ih_sub_foreach_worker never false st1 = Done tt st2 ∧
    trace st2 = trace st1 ++ new ∧
    omap visited (e_call <$> new) = [2%positive; 1%positive].
Proof.
  apply (foreach_visits_newest_first never false st_readded 2%positive sub_file).
  - reflexivity.
  - split; repeat constructor; set_solver.
  - intros x Hx. simpl in Hx.
    repeat (apply elem_of_cons in Hx as [->|Hx]); [by eexists..|].
    by apply not_elem_of_nil in Hx.
  - reflexivity.
  - simpl. set_solver.
Defined.

(** X11. Enumerating twice with the same predicate, for a predicate that
    keeps no state of its own (its answer is a function of the subscription
    pointer and of the object behind it, as every [foreach_pred] is; a
    predicate that updates its [callerdata] between calls is not covered):
    from a state that satisfies the membership invariant, the second pass
    finds every remaining subscription answering FALSE; it calls the
    predicate on each and changes nothing else, in either variant. *)
Theorem ih_sub_foreach_twice (U : gset ptr) (f : foreach_pred) (free : bool)
    (st st1 : state) :
  registry_inv U st →
  ih_sub_foreach_worker f free st = Done tt st1 →
  ih_sub_foreach_worker f free st1 =
    Done tt
      (State (sub_list st1) (initialized st1) (user_ecb st1) (user_fcb st1) (result st1)
         (inotify_lock st1) (heap st1) (ip_watched st1) (im_missing st1) (env st1)
         (trace st1 ++
          ((λ sub, Entry (CPredicate sub) (sub_list st1) (heap st1))
             <$> contents (sub_list st1)))).
Proof.
  intros Hinv Hrun.
  destruct (ih_sub_foreach_worker_step U st st1 f free Hinv Hrun)
    as ((Hnodes1 & _) & _).
  pose proof (ih_sub_foreach_worker_frame f free st st1 Hrun) as (Hlock & Hlock1 & _).
  destruct Hinv as (Hnodes & Hnd & Htracked & Hclear & Hu).
  rewrite ih_sub_foreach_worker_eq in Hrun by done.
  destruct (foreach_seq_spec f free (contents (sub_list st)) (set_inotify_lock true st)
              Hnd Hnd)
    as (st2 & new & Hrun2 & _ & _ & _ & Hheap & _ & Hlist & _).
  { intros sub Hsub. destruct (Hclear sub Hsub) as (s & Hs & Hc).
    exists s. by split. }
  simpl in *. rewrite Hrun2 in Hrun. injection Hrun as <-.
  rewrite ih_sub_foreach_worker_eq by done. rewrite foreach_seq_all_false.
  - simpl. by destruct st2.
  - intros sub [Hsub Hns]%Hlist. simpl.
    destruct (Hclear sub Hsub) as (s & Hs & Hc).
    exists s. rewrite (Hheap sub s Hsub Hs).
    destruct (f sub s) eqn:Hf; [|done].
    exfalso. apply Hns. split; [done|]. eauto.
Qed.

Lemma ih_sub_foreach_twice_witness :
  ih_sub_foreach_worker only_2 false
    (State [(3%nat, 3%positive); (1%nat, 1%positive)] true (Some 11%positive)
       (Some 12%positive) true false (<[2%positive := set_cancelled true sub_file]> heap0)
       ({[1%positive]} ∖ {[2%positive]}) ({[2%positive; 3%positive]} ∖ {[2%positive]})
       world0
       [Entry (CPredicate 3%positive) list_three heap0;
        Entry (CPredicate 2%positive) list_three heap0;
        Entry (CImRm 2%positive) list_three
          (<[2%positive := set_cancelled true sub_file]> heap0);
        Entry (CIpStopWatching 2%positive) list_three
          (<[2%positive := set_cancelled true sub_file]> heap0);
        Entry (CPredicate 1%positive) [(3%nat, 3%positive); (1%nat, 1%positive)]
          (<[2%positive := set_cancelled true sub_file]> heap0)])
  = Done tt
      (State [(3%nat, 3%positive); (1%nat, 1%positive)] true (Some 11%positive)
         (Some 12%positive) true false (<[2%positive := set_cancelled true sub_file]> heap0)
         ({[1%positive]} ∖ {[2%positive]}) ({[2%positive; 3%positive]} ∖ {[2%positive]})
         world0
         ([Entry (CPredicate 3%positive) list_three heap0;
           Entry (CPredicate 2%positive) list_three heap0;
           Entry (CImRm 2%positive) list_three
             (<[2%positive := set_cancelled true sub_file]> heap0);
           Entry (CIpStopWatching 2%positive) list_three
             (<[2%positive := set_cancelled true sub_file]> heap0);
           Entry (CPredicate 1%positive) [(3%nat, 3%positive); (1%nat, 1%positive)]
             (<[2%positive := set_cancelled true sub_file]> heap0)] ++
          [Entry (CPredicate 3%positive) [(3%nat, 3%positive); (1%nat, 1%positive)]
             (<[2%positive := set_cancelled true sub_file]> heap0);
           Entry (CPredicate 1%positive) [(3%nat, 3%positive); (1%nat, 1%positive)]
             (<[2%positive := set_cancelled true sub_file]> heap0)])).
Proof.
  apply (ih_sub_foreach_twice {[1%positive; 2%positive; 3%positive]} only_2 false st_three).
  - unfold registry_inv, watching, missing, flag_clear. simpl.
    split; [repeat constructor; set_solver|].
    split; [repeat constructor; set_solver|].
    split; [intros sub; set_solver|].
    split.
    + intros sub Hsub.
      repeat (apply elem_of_cons in Hsub as [->|Hsub]); [by eexists..|].
      by apply not_elem_of_nil in Hsub.
    + intros sub Hsub _. set_solver.
  - vm_compute. reflexivity.
Defined.

(** X12. A subscription whose flag is set while it is in the list (one that
    was handed to [ih_sub_add] again after its cancellation) cannot be
    taken out by an enumeration: the predicate's TRUE makes [ih_sub_cancel]
    a no-op, so the subscription stays in the list, and the releasing
    variant releases it all the same, leaving a node that points to a
    released object. *)
Theorem foreach_keeps_cancelled_member (f : foreach_pred) (free : bool) (st : state)
    (sub : ptr) (s : ih_sub_t) :
  inotify_lock st = false →
  list_wf st →
  (∀ x, x ∈ contents (sub_list st) → is_Some (heap st !! x)) →
  sub ∈ contents (sub_list st) →
  heap st !! sub = Some s →
  cancelled s = true →
  f sub s = true →
  ∃ st',
    ih_sub_foreach_worker f free st = Done tt st' ∧
    sub ∈ contents (sub_list st') ∧
    heap st' !! sub = if free then None else Some s.
Proof.
  intros Hlock [Hnodes Hnd] Hlive Hsub Hs Hc Hf.
  destruct (foreach_seq_spec f free (contents (sub_list st)) (set_inotify_lock true st)
              Hnd Hnd)
    as (st2 & new & Hrun & _ & _ & _ & Hheap & _ & Hlist & _).
  { intros x Hx. destruct (Hlive x Hx) as [s' Hs']. by exists s'. }
  simpl in *. exists (set_inotify_lock false st2).
  split; [by rewrite ih_sub_foreach_worker_eq, Hrun|]. simpl.
  split.
  - apply Hlist. split; [done|].
    intros (_ & s' & Hs' & _ & Hc'). simplify_eq. congruence.
  - rewrite (Hheap sub s Hsub Hs), Hf. destruct free; [done|].
    by destruct s; simpl in *; subst.
Qed.

Lemma foreach_keeps_cancelled_member_witness :
  ∃ st',
    ih_sub_foreach_worker always true st_readded = Done tt st' ∧
    1%positive ∈ contents (sub_list st') ∧
    heap st' !! 1%positive = None.
Proof.
  apply (foreach_keeps_cancelled_member always true st_readded 1%positive
           (set_cancelled true sub_dir)).
  - reflexivity.
  - split; repeat constructor; set_solver.
  - intros x Hx. simpl in Hx.
    repeat (apply elem_of_cons in Hx as [->|Hx]); [by eexists..|].
    by apply not_elem_of_nil in Hx.
  - left.
  - reflexivity.
  - reflexivity.
  - reflexivity.
Defined.

(** ** Callbacks and start-up together *)

(** X13. The callbacks are fixed by the call of [ih_startup] that
    initialises the registry: a later call with other callbacks replaces
    nothing, and an event dispatched afterwards still goes to the event
    callback recorded first. *)
Theorem first_startup_callbacks_stay (st st1 : state) (cb : positive) fcb ecb' fcb'
    (event : ik_event_t) (sub : ptr) (s : ih_sub_t) :
  initialized st = false →
  ih_startup (Some cb) fcb st = Done true st1 →
  heap st1 !! sub = Some s →
  (ih_startup ecb' fcb' ≫= λ _, ih_event_callback event sub) st1 =
    Done tt
      (State (sub_list st1) (initialized st1) (user_ecb st1) (user_fcb st1) (result st1)
         (inotify_lock st1) (heap st1) (ip_watched st1) (im_missing st1) (env st1)
         (trace st1 ++
          [Entry
             (CUserEcb cb sub
                match name event with
                | Some n => dirname s +:+ "/" +:+ n
                | None => dirname s +:+ "/"
                end
                (mask event) (usersubdata s))
             (sub_list st1) (heap st1)])).
Proof.
  intros Hini Hrun Hs.
  assert (initialized st1 = true ∧ inotify_lock st1 = false ∧ user_ecb st1 = Some cb)
    as (Hini1 & Hlock1 & Hcb).
  { revert Hrun. unfold ih_startup, ip_startup, im_startup, id_startup. unfold_monad.
    destruct (inotify_lock st); [done|]. simpl. rewrite Hini. simpl.
    destruct (inotify_ok (env st)); simpl; [|done]. by intros [= <-]. }
  unfold mbind, M_bind, bind.
  rewrite ih_startup_initialized by done.
  unfold ih_event_callback. unfold_monad.
  destruct st1; simpl in *. by rewrite Hs, Hcb.
Qed.

Lemma first_startup_callbacks_stay_witness :
  (ih_startup (Some 21%positive) (Some 22%positive)
     ≫= λ _, ih_event_callback (Event (Some "foo") 256) 1%positive) st_started
  = Done tt
      (set_trace
         (trace st_started ++
          [Entry (CUserEcb 11%positive 1%positive "/a/b/foo" 256 7) [] heap0])
         st_started).
Proof.
  apply (first_startup_callbacks_stay st0 st_started 11%positive (Some 12%positive)
           (Some 21%positive) (Some 22%positive) (Event (Some "foo") 256)
           1%positive sub_dir); reflexivity.
Defined.

(** X14. [ih_startup] does not check the callbacks it is given: with a NULL
    event callback it initialises the registry and reports success all the
    same, and the first event dispatched afterwards calls through the NULL
    pointer. *)
Theorem startup_null_callback (st : state) fcb (event : ik_event_t) (sub : ptr)
    (s : ih_sub_t) :
  inotify_lock st = false →
  initialized st = false →
  inotify_ok (env st) = true →
  heap st !! sub = Some s →
  (∃ st1, ih_startup None fcb st = Done true st1 ∧ initialized st1 = true) ∧
  (ih_startup None fcb ≫= λ _, ih_event_callback event sub) st = Fault NullCall.
Proof.
  intros Hlock Hini Hok Hs.
  unfold ih_startup, ip_startup, im_startup, id_startup, ih_event_callback.
  unfold_monad. rewrite Hlock. simpl. rewrite Hini. simpl. rewrite Hok. simpl.
  split; [by eexists|]. by rewrite Hs.
Qed.

Lemma startup_null_callback_witness :
  (∃ st1, ih_startup None (Some 12%positive) st0 = Done true st1 ∧ initialized st1 = true) ∧
  (ih_startup None (Some 12%positive)
     ≫= λ _, ih_event_callback (Event None 2) 1%positive) st0 = Fault NullCall.
Proof.
  apply (startup_null_callback st0 (Some 12%positive) (Event None 2) 1%positive sub_dir);
    reflexivity.
Defined.

(** ** Ownership *)

Lemma im_scan_owned (st st' : state) (sub : ptr) :
  im_scan sub st = Done tt st' →
  (ip_watched st' = ip_watched st ∧ im_missing st' = im_missing st) ∨
  (ip_watched st' = {[sub]} ∪ ip_watched st ∧ im_missing st' = im_missing st ∖ {[sub]}).
Proof.
  unfold im_scan, ip_start_watching. unfold_monad.
  destruct (inotify_lock st); [done|]. simpl.
  destruct (decide (sub ∈ im_missing st)); simpl; [|intros [= <-]; by left].
  destruct (heap st !! sub) as [s|]; simpl; [|done].
  destruct (can_watch (env st) s); simpl; [|intros [= <-]; by left].
  match goal with
  | |- context [ih_found_callback sub ?st2] =>
      destruct (ih_found_callback sub st2) as [[] st3|] eqn:Hfound; [|done]
  end.
  apply ih_found_callback_frame in Hfound as (new & -> & _).
  intros [= <-]. by right.
Qed.

(** X15. Exclusive ownership: [ih_sub_add] hands a subscription to the
    scanner only when the Watch Backend has declined it, so that, from a
    state that satisfies the membership invariant and in which no
    subscription is owned by both collaborators, no step makes one owned
    by both. *)
Theorem owned_once_step (U : gset ptr) (o : op) (st st' : state) :
  registry_inv U st →
  owned_once st →
  admissible o st →
  exec o st = Done tt st' →
  owned_once st'.
Proof.
  intros Hinv Hown Hadm Hrun. pose proof Hinv as (Hnodes & Hnd & Htracked & Hclear & Hu).
  assert (Hsame : ip_watched st' = ip_watched st → im_missing st' = im_missing st →
                  owned_once st').
  { unfold owned_once, watching, missing in *. by intros -> ->. }
  destruct o as [ecb fcb| |sub|f|f|event sub|sub|w]; simpl in *.
  - apply bind_inv in Hrun as (r & st1 & Hrun & [= <-]).
    apply ih_startup_frame in Hrun as (_ & _ & Hw & Hm & _). by apply Hsame.
  - injection Hrun as <-. done.
  - apply bind_inv in Hrun as (r & st1 & Hrun & [= <-]).
    pose proof (ih_sub_add_done _ _ _ _ Hrun) as (s & Hlock & Hs & Hin & _).
    rewrite (ih_sub_add_eq st sub s Hlock Hs), bool_decide_false in Hrun by done.
    cbv zeta in Hrun. injection Hrun as <-.
    assert ((sub ∉ ip_watched st) ∧ (sub ∉ im_missing st)) as [Hnw Hnm].
    { split; intros Hx; apply Hin, Htracked; [by left | by right]. }
    unfold owned_once, watching, missing in *. simpl.
    intros x [Hx1 Hx2]. apply (Hown x).
    destruct (can_watch (env st) s); set_solver.
  - destruct (ih_sub_foreach_worker_frame f false st st' Hrun) as (Hlock & _).
    unfold ih_sub_foreach in Hrun.
    rewrite ih_sub_foreach_worker_eq in Hrun by done.
    destruct (foreach_seq_spec f false (contents (sub_list st)) (set_inotify_lock true st)
                Hnd Hnd)
      as (st2 & new & Hrun2 & _ & _ & _ & _ & _ & _ & Hw & Hm & _).
    { intros x Hx. destruct (Hclear x Hx) as (s & Hs & Hc). exists s. by split. }
    simpl in *. rewrite Hrun2 in Hrun. injection Hrun as <-.
    unfold owned_once, watching, missing in *. simpl.
    intros x [[Hx1 _]%Hw [Hx2 _]%Hm]. by apply (Hown x).
  - destruct (ih_sub_foreach_worker_frame f true st st' Hrun) as (Hlock & _).
    unfold ih_sub_foreach_free in Hrun.
    rewrite ih_sub_foreach_worker_eq in Hrun by done.
    destruct (foreach_seq_spec f true (contents (sub_list st)) (set_inotify_lock true st)
                Hnd Hnd)
      as (st2 & new & Hrun2 & _ & _ & _ & _ & _ & _ & Hw & Hm & _).
    { intros x Hx. destruct (Hclear x Hx) as (s & Hs & Hc). exists s. by split. }
    simpl in *. rewrite Hrun2 in Hrun. injection Hrun as <-.
    unfold owned_once, watching, missing in *. simpl.
    intros x [[Hx1 _]%Hw [Hx2 _]%Hm]. by apply (Hown x).
  - apply (ip_event_frame U) in Hrun as (_ & _ & Hw & Hm & _); [|done]. by apply Hsame.
  - apply im_scan_owned in Hrun as [[Hw Hm]|[Hw Hm]]; [by apply Hsame|].
    unfold owned_once, watching, missing in *. rewrite Hw, Hm.
    intros x [Hx1 Hx2]. apply (Hown x). set_solver.
  - injection Hrun as <-. done.
Qed.

Lemma owned_once_step_witness :
  owned_once
    (State [(1%nat, 2%positive)] false None None false false heap0 ∅
       ({[2%positive]} ∪ ∅) world0
       [Entry (CIpStartWatching 2%positive) [] heap0; Entry (CImAdd 2%positive) [] heap0]).
Proof.
  apply (owned_once_step ∅ (OpAdd 2%positive) st0).
  - apply initial_registry_inv. by repeat split.
  - intros sub [Hw _]. unfold watching in Hw. simpl in Hw. set_solver.
  - exists sub_file. split; reflexivity.
  - reflexivity.
Defined.

(** ** The loop over the nodes *)

Lemma foreach_body_fault (f : foreach_pred) (free : bool) (sub : ptr) (st : state)
    (flt : fault) :
  foreach_body f free sub st = Fault flt → flt = UseAfterFree ∨ flt = AssertFail.
Proof.
  unfold foreach_body, call_predicate, ih_sub_free.
  unfold mbind at 1, M_bind at 1, bind at 1.
  destruct ((deref sub ≫= λ s, log (CPredicate sub);; mret (f sub s)) st)
    as [b st2|flt2] eqn:Hpred.
  2:{ revert Hpred. unfold_monad. destruct (heap st !! sub); [done|].
      intros [= <-] [= <-]. by left. }
  destruct b; [|done].
  unfold mbind at 1, M_bind at 1, bind at 1.
  destruct (heap st2 !! sub) as [s|] eqn:Hs.
  2:{ unfold ih_sub_cancel. unfold_monad. rewrite Hs. intros [= <-]. by left. }
  rewrite (ih_sub_cancel_eq st2 sub s Hs).
  destruct (cancelled s).
  - destruct free; [|done]. unfold_monad. rewrite Hs. done.
  - case_bool_decide; [|intros [= <-]; by right]. cbv zeta.
    destruct free; [|done]. unfold_monad. simpl. by rewrite lookup_insert_eq.
Qed.

Lemma foreach_seq_fault (f : foreach_pred) (free : bool) (l : list ptr) :
  ∀ st flt, foreach_seq f free l st = Fault flt → flt = UseAfterFree ∨ flt = AssertFail.
Proof.
  induction l as [|sub l IH]; intros st flt; simpl; [done|].
  unfold mbind, M_bind, bind.
  destruct (foreach_body f free sub st) as [[] st1|flt1] eqn:Hbody.
  - apply IH.
  - intros [= <-]. by eapply foreach_body_fault.
Qed.

(** X16. The loop of the enumeration terminates and keeps to the list it
    started on: when the nodes have distinct addresses, one iteration per
    node is enough, any larger bound gives the same outcome, and that
    outcome is the one of visiting, in order, the subscriptions the list
    held at the start, although the visits unlink and free nodes of the
    list while it is walked. *)
Theorem foreach_loop_terminates (f : foreach_pred) (free : bool) (fuel : nat)
    (st : state) :
  NoDup (sub_list st).*1 →
  (length (sub_list st) ≤ fuel)%nat →
  foreach_loop fuel f free (first_node (sub_list st)) st
  = foreach_seq f free (contents (sub_list st)) st ∧
  foreach_loop fuel f free (first_node (sub_list st)) st ≠ Fault OutOfFuel.
Proof.
  intros Hnd Hfuel.
  rewrite (foreach_loop_unroll f free (sub_list st) fuel [] st) by done.
  split; [done|]. intros Hflt.
  by destruct (foreach_seq_fault f free _ _ _ Hflt).
Qed.

Lemma foreach_loop_terminates_witness :
  foreach_loop 7 always true (first_node (sub_list st_three)) st_three
  = foreach_seq always true (contents (sub_list st_three)) st_three ∧
  foreach_loop 7 always true (first_node (sub_list st_three)) st_three ≠ Fault OutOfFuel.
Proof.
  apply (foreach_loop_terminates always true 7 st_three).
  - repeat constructor; set_solver.
  - simpl. lia.
Defined.

(** ** No released subscription is left behind *)

(** X17. In every run of public calls and producer steps that starts from
    a fresh process and hands [ih_sub_add] only subscriptions whose flag is
    clear, the registry and the two collaborators never keep a pointer to a
    released subscription: whatever is in the list, or owned by the Watch
    Backend or by the scanner, is allocated and has its flag clear. *)
Theorem no_released_subscription_kept (st0 st : state) (ops : list op) (sub : ptr) :
  initial st0 →
  admissible_run ops st0 →
  run ops st0 = Done tt st →
  sub ∈ contents (sub_list st) ∨ watching st sub ∨ missing st sub →
  ∃ s, heap st !! sub = Some s ∧ cancelled s = false.
Proof.
  intros Hinit Hadm Hrun Hheld.
  destruct (run_calm ops ∅ st0 st) as ([U (_ & _ & Htracked & Hclear & _)] & _);
    [by apply initial_registry_inv | done..|].
  apply Hclear. destruct Hheld as [?|Hheld]; [done|]. by apply Htracked.
Qed.

Lemma no_released_subscription_kept_witness :
  ∃ s, heap st_one !! 1%positive = Some s ∧ cancelled s = false.
Proof.
  apply (no_released_subscription_kept st0 st_one
           [OpStartup (Some 11%positive) (Some 12%positive); OpAdd 1%positive]).
  - by repeat split.
  - vm_compute. split; [exact I|]. split; [|exact I].
    exists sub_dir. split; reflexivity.
  - vm_compute. reflexivity.
  - left. left.
Defined.
